(** * Saper: the rule engine of [src/js/Game.js]

    A shallow embedding of the [Game] class: the board is the array of
    arrays [#cells], a cell object is addressed by its position in that
    array (which is how the aliasing of the source is kept: every mutation
    of a cell is an in-place update of the board), the private fields of
    [Game] form the record [Game], and each private method is a function on
    that record.  A method either returns, throws the [TypeError] that
    JavaScript raises when a property of [undefined] is read, or (for the
    two loops whose termination is not structural) runs out of fuel.

    The DOM, the timer and the modal dialog are not modelled. *)

From stdpp Require Import base tactics option list numbers relations.
From Stdlib Require Import ZArith QArith Qround Lia.

Local Open Scope Z_scope.

(** * The model *)

(** ** Cells *)

(** Modelled from the spec: [Cell.js] is not part of the sources.  A cell
    carries its coordinates, the hazard, flag and reveal marks and the
    adjacency count ([value] in [Game.js]); a fresh cell has no mark and
    count 0. *)
Record Cell : Type := mkCell {
  x : Z;
  y : Z;
  value : Z;
  isMine : bool;
  isReveal : bool;
  isFlagged : bool
}.

(** Modelled from the spec: the constructor [new Cell(x, y)] of the missing
    [Cell.js]. *)
Definition newCell (cx cy : Z) : Cell :=
  mkCell cx cy 0 false false false.

(** Modelled from the spec: [addMine] of the missing [Cell.js]
    (markHazard: sets the hazard mark). *)
Definition addMine (c : Cell) : Cell :=
  mkCell (x c) (y c) (value c) true (isReveal c) (isFlagged c).

(** Modelled from the spec: [revealCell] of the missing [Cell.js]
    (sets the reveal mark, idempotent). *)
Definition revealCell (c : Cell) : Cell :=
  mkCell (x c) (y c) (value c) (isMine c) true (isFlagged c).

(** Modelled from the spec: [toggleFlag] of the missing [Cell.js]
    (flips the flag, permitted only while the cell is not revealed). *)
Definition toggleFlag (c : Cell) : Cell :=
  if isReveal c then c
  else mkCell (x c) (y c) (value c) (isMine c) (isReveal c) (negb (isFlagged c)).

(** The assignment [cell.value = minesCount]. *)
Definition setValue (v : Z) (c : Cell) : Cell :=
  mkCell (x c) (y c) v (isMine c) (isReveal c) (isFlagged c).

(** ** The counter of remaining flags *)

(** Modelled from the spec: [increment] and [decrement] of the missing
    [Counter.js] (the externally visible counter moves by one); its
    [setValue] is an assignment. *)
Definition increment (n : Z) : Z := n + 1.

Definition decrement (n : Z) : Z := n - 1.

(** ** Arrays *)

(** [a[i]] for a JavaScript array and an integer [i]: [None] stands for
    [undefined]. *)
Definition at_ {A} (l : list A) (i : Z) : option A :=
  if 0 <=? i then l !! Z.to_nat i else None.

(** [cells[row][col]] where the row exists; a position is written
    [(row, col)]. *)
Definition cellAt (cs : list (list Cell)) (p : Z * Z) : option Cell :=
  at_ cs p.1 ≫= λ row, at_ row p.2.

(** In-place mutation of the cell object stored at position [p]. *)
Definition updCell (f : Cell → Cell) (p : Z * Z) (cs : list (list Cell))
  : list (list Cell) :=
  if (0 <=? p.1) && (0 <=? p.2)
  then alter (alter f (Z.to_nat p.2)) (Z.to_nat p.1) cs
  else cs.

(** [for (let i = lo; i <= hi; i++)]: the values [i] takes. *)
Definition forRange (lo hi : Z) : list Z := seqZ lo (hi - lo + 1).

(** ** The game *)

(** The face of the reset button ([#buttons.reset.changeEmotion]); it is the
    only place where the model keeps whether a finished game was won. *)
Inductive Emotion : Type := neutral | positive | negative.

Record Game : Type := mkGame {
  isGameFinished : bool;
  numberOfRowes : Z;
  numberOfCols : Z;
  numberOfMines : Z;
  cells : list (list Cell);
  cellsToReveal : Z;
  revealedCells : Z;
  counter : Z;            (* [#counter.value], the remaining flags *)
  emotion : Emotion
}.

Definition withCells (cs : list (list Cell)) (s : Game) : Game :=
  mkGame (isGameFinished s) (numberOfRowes s) (numberOfCols s)
    (numberOfMines s) cs (cellsToReveal s) (revealedCells s) (counter s)
    (emotion s).

Definition withRevealedCells (n : Z) (s : Game) : Game :=
  mkGame (isGameFinished s) (numberOfRowes s) (numberOfCols s)
    (numberOfMines s) (cells s) (cellsToReveal s) n (counter s) (emotion s).

Definition withCounter (n : Z) (s : Game) : Game :=
  mkGame (isGameFinished s) (numberOfRowes s) (numberOfCols s)
    (numberOfMines s) (cells s) (cellsToReveal s) (revealedCells s) n
    (emotion s).

Definition withFinished (b : bool) (e : Emotion) (s : Game) : Game :=
  mkGame b (numberOfRowes s) (numberOfCols s) (numberOfMines s) (cells s)
    (cellsToReveal s) (revealedCells s) (counter s) e.

(** The field initialisers of the class ([null] is written 0). *)
Definition initialGame : Game :=
  mkGame false 0 0 0 [] 0 0 0 neutral.

(** What a method call produces. *)
Inductive result : Type :=
| Done (s : Game)        (* the method returned *)
| TypeError (s : Game)   (* a property of [undefined] was read; [s] is the
                            state at that moment *)
| OutOfFuel.             (* the model stopped a loop that was still running *)

(** *** New game *)

(** [#generateCells]: row [row] holds the cells [new Cell(col, row)]. *)
Definition generateCells (rows cols : Z) : list (list Cell) :=
  (λ row, (λ col, newCell col row) <$> seqZ 0 cols) <$> seqZ 0 rows.

(** [#getRandomInteger(min, max)], on the number [u] that [Math.random()]
    returned (a rational in the unit interval, half open). *)
Definition getRandomInteger (u : Q) (min max : Z) : Z :=
  Qfloor (u * inject_Z (max - min + 1)) + min.

(** The [while (minesToPlace)] loop of [#placeMinesInCells]; [tape] holds the
    numbers that the successive calls of [Math.random()] return, two for each
    turn of the loop.  The loop is still running when the tape is used up. *)
Fixpoint placeMines (tape : list Q) (s : Game) (minesToPlace : Z) : result :=
  if minesToPlace =? 0 then Done s
  else
    match tape with
    | u1 :: u2 :: tape' =>
        let rowIndex := getRandomInteger u1 0 (numberOfRowes s - 1) in
        let colIndex := getRandomInteger u2 0 (numberOfCols s - 1) in
        match cellAt (cells s) (rowIndex, colIndex) with
        | None => TypeError s
        | Some cell =>
            if isMine cell then placeMines tape' s minesToPlace
            else placeMines tape'
                   (withCells (updCell addMine (rowIndex, colIndex) (cells s)) s)
                   (minesToPlace - 1)
        end
    | _ => OutOfFuel
    end.

(** [#placeMinesInCells]. *)
Definition placeMinesInCells (tape : list Q) (s : Game) : result :=
  placeMines tape s (numberOfMines s).

(** [#newGame(rows, cols, mines)].  The fields are assigned in the order of
    the source, so that a [TypeError] of the placement leaves the state the
    source leaves. *)
Definition newGame (tape : list Q) (s : Game) (rows cols mines : Z) : result :=
  let s1 :=
    mkGame (isGameFinished s) rows cols mines (generateCells rows cols)
      (cols * rows - mines) (revealedCells s) mines (emotion s) in
  match placeMinesInCells tape s1 with
  | Done s2 => Done (withRevealedCells 0 (withFinished false neutral s2))
  | r => r
  end.

(** *** End of a game *)

(** [#revealMines]. *)
Definition revealMines (cs : list (list Cell)) : list (list Cell) :=
  (λ row : list Cell, (λ c, if isMine c then revealCell c else c) <$> row) <$> cs.

(** [#endGame(isWin)]. *)
Definition endGame (isWin : bool) (s : Game) : Game :=
  if negb isWin
  then withCells (revealMines (cells s)) (withFinished true negative s)
  else withFinished true positive s.

(** *** Revealing *)

(** The positions that the two nested [for] loops of [#setCellValue] visit
    around the cell with coordinates [cx], [cy], in the order of the visit. *)
Definition neighbourhood (s : Game) (cx cy : Z) : list (Z * Z) :=
  forRange (Z.max (cy - 1) 0) (Z.min (cy + 1) (numberOfRowes s - 1)) ≫= λ row,
  (λ col, (row, col)) <$>
    forRange (Z.max (cx - 1) 0) (Z.min (cx + 1) (numberOfCols s - 1)).

(** The first pair of loops of [#setCellValue]: [minesCount++] for every mine
    met; [None] when a visited position holds no cell. *)
Fixpoint countMines (cs : list (list Cell)) (ps : list (Z * Z)) (minesCount : Z)
  : option Z :=
  match ps with
  | [] => Some minesCount
  | p :: ps' =>
      match cellAt cs p with
      | None => None
      | Some c => countMines cs ps' (if isMine c then minesCount + 1 else minesCount)
      end
  end.

(** The second pair of loops of [#setCellValue]: [#clickCell] on every
    visited cell that is not revealed when its turn comes. *)
Fixpoint revealAdjacent (click : Game → Z * Z → result) (ps : list (Z * Z))
  (s : Game) : result :=
  match ps with
  | [] => Done s
  | p :: ps' =>
      match cellAt (cells s) p with
      | None => TypeError s
      | Some adjacentCell =>
          if isReveal adjacentCell then revealAdjacent click ps' s
          else
            match click s p with
            | Done s' => revealAdjacent click ps' s'
            | r => r
            end
      end
  end.

(** The three statements [cell.value = minesCount; cell.revealCell();
    this.#revealedCells++]. *)
Definition processCell (s : Game) (p : Z * Z) (minesCount : Z) : Game :=
  withRevealedCells (revealedCells s + 1)
    (withCells (updCell (λ c, revealCell (setValue minesCount c)) p (cells s)) s).

(** [#setCellValue(cell)], for the cell stored at [p]; [click] is
    [#clickCell], which the method calls back. *)
Definition setCellValue (click : Game → Z * Z → result) (s : Game) (p : Z * Z)
  : result :=
  match cellAt (cells s) p with
  | None => TypeError s
  | Some cell =>
      let around := neighbourhood s (x cell) (y cell) in
      match countMines (cells s) around 0 with
      | None => TypeError s
      | Some minesCount =>
          let s' := processCell s p minesCount in
          if minesCount =? 0 then revealAdjacent click around s' else Done s'
      end
  end.

(** [#clickCell(cell)], for the cell stored at [p] ([undefined] when there is
    none).  [fuel] bounds the depth of the recursion through
    [#setCellValue]. *)
Fixpoint clickCell (fuel : nat) (s : Game) (p : Z * Z) : result :=
  match fuel with
  | O => OutOfFuel
  | S fuel' =>
      if isGameFinished s then Done s
      else
        match cellAt (cells s) p with
        | None => TypeError s
        | Some cell =>
            if isFlagged cell then Done s
            else
              let s1 := if isMine cell then endGame false s else s in
              match setCellValue (clickCell fuel') s1 p with
              | Done s2 =>
                  if (revealedCells s2 =? cellsToReveal s2)
                     && negb (isGameFinished s2)
                  then Done (endGame true s2)
                  else Done s2
              | r => r
              end
        end
  end.

(** *** The two handlers *)

(** [#handleCellClick], on the coordinates read from the clicked element. *)
Definition handleCellClick (fuel : nat) (s : Game) (rowIndex colIndex : Z)
  : result :=
  match at_ (cells s) rowIndex with
  | None => TypeError s
  | Some _ => clickCell fuel s (rowIndex, colIndex)
  end.

(** [#handleCellContextMenu]. *)
Definition handleCellContextMenu (s : Game) (rowIndex colIndex : Z) : result :=
  match cellAt (cells s) (rowIndex, colIndex) with
  | None => TypeError s
  | Some cell =>
      if isReveal cell || isGameFinished s then Done s
      else if isFlagged cell then
        Done (withCells (updCell toggleFlag (rowIndex, colIndex) (cells s))
                (withCounter (increment (counter s)) s))
      else if negb (counter s =? 0) then
        Done (withCells (updCell toggleFlag (rowIndex, colIndex) (cells s))
                (withCounter (decrement (counter s)) s))
      else Done s
  end.

(** ** Sessions *)

(** A request of the player. *)
Inductive request : Type :=
| Reveal (rowIndex colIndex : Z)
| Flag (rowIndex colIndex : Z).

Definition handle (fuel : nat) (s : Game) (r : request) : result :=
  match r with
  | Reveal rowIndex colIndex => handleCellClick fuel s rowIndex colIndex
  | Flag rowIndex colIndex => handleCellContextMenu s rowIndex colIndex
  end.

(** The state in which a call leaves the game ([s] when the model gave up). *)
Definition stateAfter (s : Game) (r : result) : Game :=
  match r with
  | Done s' => s'
  | TypeError s' => s'
  | OutOfFuel => s
  end.

(** The requests of a list, one after the other; an uncaught [TypeError]
    ends one handler, not the session. *)
Fixpoint play (fuel : nat) (s : Game) (rs : list request) : Game :=
  match rs with
  | [] => s
  | r :: rs' => play fuel (stateAfter s (handle fuel s r)) rs'
  end.

(** *** Levels and buttons *)

(** [#config]. *)
Module config.
Record level : Type := mkLevel { rows : Z; cols : Z; mines : Z }.
Definition easy : level := mkLevel 8 8 10.
Definition normal : level := mkLevel 16 16 40.
Definition expert : level := mkLevel 30 16 99.
End config.

(** [initializeGame()], as far as the fields of the game go: the call
    [this.#newGame()] leaves out every argument, and the default parameters
    of [#newGame] are those of the easy level. *)
Definition initializeGame (tape : list Q) (s : Game) : result :=
  newGame tape s (config.rows config.easy) (config.cols config.easy)
    (config.mines config.easy).

(** [#handleNewGameClick(rows, cols, mines)]; an argument that is left out
    is [None] and takes the value of its default parameter, a field of the
    current game. *)
Definition handleNewGameClick (tape : list Q) (s : Game) (rows cols mines : option Z)
  : result :=
  newGame tape s (default (numberOfRowes s) rows) (default (numberOfCols s) cols)
    (default (numberOfMines s) mines).

(** The buttons of [#buttons] whose callbacks start a game (the callback of
    the fifth, [modal], only calls the modal window). *)
Inductive button : Type := easy | normal | expert | reset.

(** The callbacks that [#addButtonsEventListeners] registers for a click. *)
Definition clickButton (tape : list Q) (s : Game) (b : button) : result :=
  match b with
  | easy =>
      handleNewGameClick tape s (Some (config.rows config.easy))
        (Some (config.cols config.easy)) (Some (config.mines config.easy))
  | normal =>
      handleNewGameClick tape s (Some (config.rows config.normal))
        (Some (config.cols config.normal)) (Some (config.mines config.normal))
  | expert =>
      handleNewGameClick tape s (Some (config.rows config.expert))
        (Some (config.cols config.expert)) (Some (config.mines config.expert))
  | reset => handleNewGameClick tape s None None None
  end.

(** * The notions of the statements *)

(** ** Counting cells *)

(** The number of cells of the board that satisfy [P]. *)
Definition countCells (P : Cell → bool) (cs : list (list Cell)) : nat :=
  sum_list_with (sum_list_with (λ c, if P c then 1 else 0)%nat) cs.

(** The number of cells of the board. *)
Definition totalCells (cs : list (list Cell)) : nat :=
  sum_list_with length cs.

Definition unrevealed (s : Game) : nat :=
  countCells (λ c, negb (isReveal c)) (cells s).

Definition mineCells (s : Game) : nat := countCells isMine (cells s).

(** ** Well-formed boards *)

(** The position at which a cell believes to be. *)
Definition position (c : Cell) : Z * Z := (y c, x c).

Definition positions (rows cols : Z) : list (list (Z * Z)) :=
  (λ row, (λ col, (row, col)) <$> seqZ 0 cols) <$> seqZ 0 rows.

(** The board is [numberOfRowes] arrays of [numberOfCols] cells, and every
    cell carries the coordinates of the place where it is stored (what
    [#generateCells] builds). *)
Definition wellFormed (s : Game) : Prop :=
  (λ row : list Cell, position <$> row) <$> cells s
  = positions (numberOfRowes s) (numberOfCols s).

Definition inBoard (s : Game) (p : Z * Z) : Prop :=
  0 ≤ p.1 < numberOfRowes s ∧ 0 ≤ p.2 < numberOfCols s.

Global Instance inBoard_dec s p : Decision (inBoard s p).
Proof. unfold inBoard. apply _. Defined.

(** ** Relating two boards cell by cell *)

Definition boardRel (R : Cell → Cell → Prop) (cs cs' : list (list Cell)) : Prop :=
  Forall2 (Forall2 R) cs cs'.

(** ** What a reveal leaves alone *)

(** Coordinates, mines and flags stay, and a reveal mark is never removed. *)
Definition cellGrows (c c' : Cell) : Prop :=
  position c' = position c ∧ isMine c' = isMine c ∧ isFlagged c' = isFlagged c
  ∧ (isReveal c = true → isReveal c' = true).

(** Moreover a revealed cell and a flagged cell stay as they are. *)
Definition cellKeeps (c c' : Cell) : Prop :=
  cellGrows c c' ∧ (isReveal c = true → c' = c) ∧ (isFlagged c = true → c' = c).

(** The same game, later: the size, the number of mines, the goal and the
    flag counter are the same and the cells are related by [R]. *)
Record later (R : Cell → Cell → Prop) (s s' : Game) : Prop := mkLater {
  later_rows : numberOfRowes s' = numberOfRowes s;
  later_cols : numberOfCols s' = numberOfCols s;
  later_mines : numberOfMines s' = numberOfMines s;
  later_goal : cellsToReveal s' = cellsToReveal s;
  later_counter : counter s' = counter s;
  later_cells : boardRel R (cells s) (cells s')
}.

(** ** The cascade, step by step *)

(** The mines that [#setCellValue] counts for the cell stored at [p]. *)
Definition minesAround (s : Game) (p : Z * Z) : option Z :=
  cellAt (cells s) p ≫= λ cell,
  countMines (cells s) (neighbourhood s (x cell) (y cell)) 0.

(** One step of a cascade: a cell that is neither revealed, flagged nor mined
    is given its count and revealed while the game is running, or the game
    is won. *)
Inductive nstep : Game → Game → Prop :=
| nstep_reveal s p cell n :
    isGameFinished s = false →
    cellAt (cells s) p = Some cell →
    isFlagged cell = false → isReveal cell = false → isMine cell = false →
    minesAround s p = Some n →
    nstep s (processCell s p n)
| nstep_win s :
    isGameFinished s = false →
    revealedCells s = cellsToReveal s →
    nstep s (endGame true s).

(** ** What [#clickCell] does, whenever it returns *)

(** The callback reveals by cascade steps only, when it is called on a cell
    that is neither revealed nor mined. *)
Definition cascades (click : Game → Z * Z → result) : Prop :=
  ∀ s p cell s',
    cellAt (cells s) p = Some cell → isReveal cell = false → isMine cell = false →
    click s p = Done s' → rtc nstep s s'.

(** [#clickCell]'s test for the end of a won game. *)
Definition winCheck (s : Game) : Game :=
  if (revealedCells s =? cellsToReveal s) && negb (isGameFinished s)
  then endGame true s else s.

(** The effect of a call of [#clickCell] that returns: nothing when the game
    is finished or the cell flagged; else the loss when the cell is mined,
    the cell's turn, a cascade and the test for the win. *)
Inductive clicked (s : Game) (p : Z * Z) : Game → Prop :=
| clicked_finished :
    isGameFinished s = true → clicked s p s
| clicked_flagged cell :
    isGameFinished s = false → cellAt (cells s) p = Some cell →
    isFlagged cell = true → clicked s p s
| clicked_reveal cell n s3 :
    isGameFinished s = false → cellAt (cells s) p = Some cell →
    isFlagged cell = false →
    minesAround (if isMine cell then endGame false s else s) p = Some n →
    rtc nstep (processCell (if isMine cell then endGame false s else s) p n) s3 →
    clicked s p (winCheck s3).

(** ** [#clickCell] returns *)

(** The callback returns when it is called on a cell that is neither
    revealed nor mined, on a board with at most [m] cells to reveal. *)
Definition returns (m : nat) (click : Game → Z * Z → result) : Prop :=
  ∀ s p cell,
    wellFormed s → cellAt (cells s) p = Some cell →
    isReveal cell = false → isMine cell = false → (unrevealed s ≤ m)%nat →
    ∃ s', click s p = Done s'.

(** ** Boards used as examples *)

(** One row of four cells, the mine in the last one: the game that
    [#newGame(1, 4, 1)] starts when [Math.random()] returns 0 and 3/4. *)
Definition row4 : Game :=
  Eval vm_compute in stateAfter initialGame (newGame [0%Q; (3 # 4)%Q] initialGame 1 4 1).

(** One row of three cells with the mine in the middle. *)
Definition row3 : Game :=
  Eval vm_compute in stateAfter initialGame (newGame [0%Q; (1 # 3)%Q] initialGame 1 3 1).

(** One row of five cells with the mine in the last one. *)
Definition row5 : Game :=
  Eval vm_compute in stateAfter initialGame (newGame [0%Q; (4 # 5)%Q] initialGame 1 5 1).

(** One row of six cells with the mine in the last one. *)
Definition row6 : Game :=
  Eval vm_compute in stateAfter initialGame (newGame [0%Q; (5 # 6)%Q] initialGame 1 6 1).

(** One row of seven cells with mines in the last two. *)
Definition row7 : Game :=
  Eval vm_compute in
    stateAfter initialGame
      (newGame [0%Q; (5 # 7)%Q; 0%Q; (6 # 7)%Q] initialGame 1 7 2).

(** Three rows of three cells, the mine in the last cell of the last row. *)
Definition square3 : Game :=
  Eval vm_compute in
    stateAfter initialGame (newGame [(2 # 3)%Q; (2 # 3)%Q] initialGame 3 3 1).

(** ** Finished boards used as examples *)

(** [row4] after the mine was clicked: a lost game. *)
Definition row4_lost : Game := Eval vm_compute in play 4 row4 [Reveal 0 3].

(** [row4] after its three free cells were revealed one by one: a won game. *)
Definition row4_won : Game :=
  Eval vm_compute in play 4 row4 [Reveal 0 2; Reveal 0 1; Reveal 0 0].

(** ** The adjacency count (C5) *)

(** 1 when a mined cell is stored at [q], else 0 (also off the board). *)
Definition mineAt (s : Game) (q : Z * Z) : Z :=
  match cellAt (cells s) q with
  | Some c => if isMine c then 1 else 0
  | None => 0
  end.

(** The eight directions to a neighbour, as (row, column) offsets. *)
Definition offsets8 : list (Z * Z) :=
  [(-1, -1); (-1, 0); (-1, 1); (0, -1); (0, 1); (1, -1); (1, 0); (1, 1)].

Definition sumZ {A} (f : A → Z) (l : list A) : Z := foldr (λ a acc, f a + acc) 0 l.

(** The number of mined cells among the neighbours of [p] that are on the
    board, [p] itself left out. *)
Definition adjacentMines (s : Game) (p : Z * Z) : Z :=
  sumZ (λ d, mineAt s (p.1 + d.1, p.2 + d.2)) offsets8.

(** ** Reachable games *)

(** The games a session goes through: a new game, then reveal and flag
    requests whose handlers return. *)
Inductive reachable : Game → Prop :=
| reachable_new tape s0 rows cols mines s :
    newGame tape s0 rows cols mines = Done s → reachable s
| reachable_reveal fuel s rowIndex colIndex s' :
    reachable s → handleCellClick fuel s rowIndex colIndex = Done s' → reachable s'
| reachable_flag s rowIndex colIndex s' :
    reachable s → handleCellContextMenu s rowIndex colIndex = Done s' → reachable s'.

(** Every revealed cell without mine shows the count that [#setCellValue]
    computes for it. *)
Definition valuesRight (s : Game) : Prop :=
  ∀ p cell, cellAt (cells s) p = Some cell → isReveal cell = true → isMine cell = false →
            minesAround s p = Some (value cell).

(** ** New games (C6) *)

(** What the placement of mines leaves alone. *)
Definition cellMined (c c' : Cell) : Prop :=
  position c' = position c ∧ value c' = value c ∧ isReveal c' = isReveal c
  ∧ isFlagged c' = isFlagged c.

(** A game that has just been started. *)
Record started (rows cols mines : Z) (s : Game) : Prop := mkStarted {
  started_wellFormed : wellFormed s;
  started_rows : numberOfRowes s = rows;
  started_cols : numberOfCols s = cols;
  started_mines : numberOfMines s = mines;
  started_counter : counter s = mines;
  started_goal : cellsToReveal s = cols * rows - mines;
  started_revealed : revealedCells s = 0;
  started_running : isGameFinished s = false;
  started_emotion : emotion s = neutral;
  started_mineCells : Z.of_nat (mineCells s) = mines;
  started_cells : boardRel cellMined (generateCells rows cols) (cells s)
}.

(** ** Flags (C9) *)

Definition flaggedCells (s : Game) : nat := countCells isFlagged (cells s).

(** The game after the flag of the cell at [p] was toggled and the counter
    moved by [d]. *)
Definition toggled (s : Game) (p : Z * Z) (d : Z) : Game :=
  withCells (updCell toggleFlag p (cells s)) (withCounter (counter s + d) s).

(** What toggling a flag leaves alone. *)
Definition cellFlagged (c c' : Cell) : Prop :=
  position c' = position c ∧ isMine c' = isMine c ∧ value c' = value c
  ∧ isReveal c' = isReveal c ∧ (isReveal c = true → c' = c).

(** ** What holds in every reachable game *)

Record sound (s : Game) : Prop := mkSound {
  sound_wellFormed : wellFormed s;
  sound_values : valuesRight s;
  sound_counter : 0 ≤ counter s;
  sound_flags : counter s + Z.of_nat (flaggedCells s) = numberOfMines s;
  sound_mines : Z.of_nat (mineCells s) = numberOfMines s;
  sound_goal : cellsToReveal s = numberOfCols s * numberOfRowes s - numberOfMines s
}.

(** Requests that all return, from a reachable game, lead to a reachable
    game. *)
Fixpoint allDone (fuel : nat) (s : Game) (rs : list request) : bool :=
  match rs with
  | [] => true
  | r :: rs' =>
      match handle fuel s r with
      | Done s' => allDone fuel s' rs'
      | _ => false
      end
  end.

(** ** The marks of the cell at a position *)

Definition flaggedAt (s : Game) (p : Z * Z) : bool :=
  from_option isFlagged false (cellAt (cells s) p).

Definition revealedAt (s : Game) (p : Z * Z) : bool :=
  from_option isReveal false (cellAt (cells s) p).

(** ** The cascade reaches every cell it should (C3) *)

(** The cell at [d] needs no reveal: it is revealed, or locked by a flag. *)
Definition covered (s : Game) (d : Z * Z) : Prop :=
  revealedAt s d = true ∨ flaggedAt s d = true.

(** From [s] to [s'], every cell that has become revealed and has no mine
    around it has all the cells around it covered. *)
Definition closed (s s' : Game) : Prop :=
  ∀ q cq, cellAt (cells s) q = Some cq → isReveal cq = false →
          revealedAt s' q = true → minesAround s q = Some 0 →
          ∀ d, d ∈ neighbourhood s (x cq) (y cq) → covered s' d.

(** The callback leaves the game finished, or the cell it was called on
    covered and the board closed. *)
Definition closes (click : Game → Z * Z → result) : Prop :=
  ∀ s p cell s',
    cellAt (cells s) p = Some cell → isReveal cell = false → isMine cell = false →
    click s p = Done s' →
    isGameFinished s' = true ∨ (covered s' p ∧ closed s s').

(** The number of cells without mine that are not revealed. *)
Definition hiddenFree (s : Game) : nat :=
  countCells (λ c, negb (isMine c) && negb (isReveal c)) (cells s).

(** The counter of revealed cells is right: with the free cells that are
    still hidden it makes up the goal.  This holds when a game starts and as
    long as no revealed cell is clicked again. *)
Definition counted (s : Game) : Prop :=
  revealedCells s + Z.of_nat (hiddenFree s) = cellsToReveal s.

(** [d] is [q] or one of its eight neighbours. *)
Definition adjacent (q d : Z * Z) : Prop :=
  Z.abs (d.1 - q.1) ≤ 1 ∧ Z.abs (d.2 - q.2) ≤ 1.

(** A cell without mine and with no mine among its neighbours on the board. *)
Definition freeZero (s : Game) (q : Z * Z) : Prop :=
  ∃ c, cellAt (cells s) q = Some c ∧ isMine c = false ∧ adjacentMines s q = 0.

(** A cell that is neither revealed nor flagged. *)
Definition hidden (s : Game) (q : Z * Z) : Prop :=
  ∃ c, cellAt (cells s) q = Some c ∧ isReveal c = false ∧ isFlagged c = false.

(** The cells of the board that are reachable from [p] through a chain of
    cells without mine around them (the chain of the specification). *)
Inductive zeroChain (s : Game) (p : Z * Z) : Z * Z → Prop :=
| zeroChain_start : zeroChain s p p
| zeroChain_step q d :
    zeroChain s p q → freeZero s q → adjacent q d → inBoard s d →
    zeroChain s p d.

(** The same, through cells that are moreover hidden: neither revealed nor
    flagged (the chain that the cascade follows). *)
Inductive hiddenChain (s : Game) (p : Z * Z) : Z * Z → Prop :=
| hiddenChain_start : hiddenChain s p p
| hiddenChain_step q d :
    hiddenChain s p q → freeZero s q → hidden s q → adjacent q d → inBoard s d →
    hiddenChain s p d.

(** [row7] after its second cell was revealed between two flags and the
    flags were taken away again. *)
Definition row7_opened : Game :=
  Eval vm_compute in
    play 7 row7 [Flag 0 0; Flag 0 2; Reveal 0 1; Flag 0 0; Flag 0 2].

(** ** Numbers on which the placement ends *)

(** A number that [Math.random()] may return and for which
    [#getRandomInteger(0, n - 1)] is [i]. *)
Definition drawFor (n i : Z) : Q := i # Z.to_pos n.

(** The numbers to draw for the cells number [k], [k + 1], ... ([n] of them,
    counted row after row) of a board with [cols] columns. *)
Fixpoint tapeFor (rows cols k : Z) (n : nat) : list Q :=
  match n with
  | O => []
  | S n' => drawFor rows (k / cols) :: drawFor cols (k mod cols)
            :: tapeFor rows cols (k + 1) n'
  end.

(** ** Sessions without a second click on a revealed cell *)

(** The games of a session that starts from a configuration with fewer mines
    than cells and in which no reveal request is made for a revealed cell. *)
Inductive careful : Game → Prop :=
| careful_new tape s0 rows cols mines s :
    0 < rows → 0 < cols → mines < rows * cols →
    newGame tape s0 rows cols mines = Done s → careful s
| careful_reveal fuel s rowIndex colIndex s' :
    careful s → revealedAt s (rowIndex, colIndex) = false →
    handleCellClick fuel s rowIndex colIndex = Done s' → careful s'
| careful_flag s rowIndex colIndex s' :
    careful s → handleCellContextMenu s rowIndex colIndex = Done s' → careful s'.

(** The counter of revealed cells is below the goal while the game runs, at
    the goal when the game is won, and within the goal when it is lost. *)
Definition goalKept (s : Game) : Prop :=
  match emotion s with
  | neutral =>
      isGameFinished s = false ∧ counted s ∧ revealedCells s < cellsToReveal s
  | positive =>
      isGameFinished s = true ∧ counted s ∧ revealedCells s = cellsToReveal s
  | negative =>
      isGameFinished s = true ∧ revealedCells s ≤ cellsToReveal s
  end.

(** ** New games, on any numbers *)

(** Numbers that [Math.random()] may return: rationals in the unit interval,
    1 left out. *)
Definition unitTape (tape : list Q) : Prop :=
  Forall (λ u, (0 <= u)%Q ∧ (u < 1)%Q) tape.

(** What the placement does to a cell: nothing, or it puts a mine into a
    cell that had none. *)
Definition mineAdded (c c' : Cell) : Prop :=
  c' = c ∨ (isMine c = false ∧ c' = addMine c).

(** The result [r] with its board put into the game [t]: what the placement
    gives from [t] when [r] is what it gives from a game with the board and
    the size of [t]. *)
Definition reframe (t : Game) (r : result) : result :=
  match r with
  | Done s' => Done (withCells (cells s') t)
  | TypeError s' => TypeError (withCells (cells s') t)
  | OutOfFuel => OutOfFuel
  end.

(** The level that a button starts: its own, and for the reset button the
    level of the game that it replaces. *)
Definition levelOf (s : Game) (b : button) : config.level :=
  match b with
  | easy => config.easy
  | normal => config.normal
  | expert => config.expert
  | reset => config.mkLevel (numberOfRowes s) (numberOfCols s) (numberOfMines s)
  end.

(** ** The phases of a game *)

(** No cell with a mine is revealed. *)
Definition noMineRevealed (s : Game) : Prop :=
  ∀ p c, cellAt (cells s) p = Some c → isMine c = true → isReveal c = false.

(** Every cell with a mine is revealed. *)
Definition everyMineRevealed (s : Game) : Prop :=
  ∀ p c, cellAt (cells s) p = Some c → isMine c = true → isReveal c = true.

(** The face of the reset button tells whether the game runs, is won or is
    lost, and the mines are hidden until the game is lost. *)
Definition phase (s : Game) : Prop :=
  match emotion s with
  | neutral => isGameFinished s = false ∧ noMineRevealed s
  | positive =>
      isGameFinished s = true ∧ revealedCells s = cellsToReveal s ∧ noMineRevealed s
  | negative => isGameFinished s = true ∧ everyMineRevealed s
  end.

(** ** What a request leaves alone *)

(** The same place of two boards holds no cell in both, or cells related by
    [R]. *)
Definition sameCellBut (R : Cell → Cell → Prop) (o o' : option Cell) : Prop :=
  match o, o' with
  | Some c, Some c' => R c c'
  | None, None => True
  | _, _ => False
  end.

(** ** The cascade stays in the region *)

(** Every cell that the callback reveals, when it is called on a hidden cell
    without mine of a well-formed board, lies on a chain from that cell
    through hidden cells with no mine around them. *)
Definition stays (click : Game → Z * Z → result) : Prop :=
  ∀ s p cell s',
    wellFormed s →
    cellAt (cells s) p = Some cell → isReveal cell = false → isMine cell = false →
    click s p = Done s' →
    ∀ d, revealedAt s d = false → revealedAt s' d = true → hiddenChain s p d.

(** * Lemmas and theorems *)

(** ** Arrays: lookup and update *)

Section arrays.
Context {A : Type}.
Implicit Types (l : list A) (i : Z).

Lemma at_Some l i a : at_ l i = Some a ↔ 0 ≤ i ∧ l !! Z.to_nat i = Some a.
Proof.
  unfold at_. destruct (0 <=? i) eqn:E.
  - apply Z.leb_le in E. tauto.
  - apply Z.leb_gt in E. split; [done | lia].
Qed.

Lemma at_fmap {B} (f : A → B) l i : at_ (f <$> l) i = f <$> at_ l i.
Proof. unfold at_. destruct (0 <=? i); [apply list_lookup_fmap | done]. Qed.

Lemma at_alter (f : A → A) l i j :
  0 ≤ i →
  at_ (alter f (Z.to_nat i) l) j = if decide (i = j) then f <$> at_ l i else at_ l j.
Proof.
  intros Hi. unfold at_. destruct (decide (i = j)) as [<- | Hne].
  - destruct (0 <=? i) eqn:E; [| apply Z.leb_gt in E; lia].
    apply list_lookup_alter_eq.
  - destruct (0 <=? j) eqn:E; [| done]. apply Z.leb_le in E.
    apply list_lookup_alter_ne. lia.
Qed.

End arrays.

Lemma at_seqZ n i : at_ (seqZ 0 n) i = if decide (0 ≤ i < n) then Some i else None.
Proof.
  unfold at_. destruct (0 <=? i) eqn:E.
  - apply Z.leb_le in E. case_decide.
    + rewrite lookup_seqZ_lt by lia. f_equal. lia.
    + apply lookup_seqZ_ge. lia.
  - apply Z.leb_gt in E. case_decide; [lia | done].
Qed.

Lemma cellAt_Some cs p c :
  cellAt cs p = Some c ↔ ∃ row, at_ cs p.1 = Some row ∧ at_ row p.2 = Some c.
Proof.
  unfold cellAt. destruct (at_ cs p.1) as [row|]; simpl.
  - split; [eauto | intros (r & E & ?); by simplify_eq].
  - split; [done | intros (r & ? & ?); done].
Qed.

Lemma cellAt_nonneg cs p c : cellAt cs p = Some c → 0 ≤ p.1 ∧ 0 ≤ p.2.
Proof.
  intros (row & H1 & H2)%cellAt_Some.
  apply at_Some in H1. apply at_Some in H2. tauto.
Qed.

(** Reading after a mutation: only the mutated cell has changed. *)
Lemma cellAt_updCell f p cs q :
  cellAt (updCell f p cs) q = if decide (p = q) then f <$> cellAt cs p else cellAt cs q.
Proof.
  unfold updCell. destruct p as [r c], q as [r' c']; simpl.
  destruct (0 <=? r) eqn:Er; simpl.
  2:{ apply Z.leb_gt in Er. case_decide as E; [| done]. inversion E; subst.
      unfold cellAt, at_; simpl. destruct (0 <=? r') eqn:E'; [| done].
      apply Z.leb_le in E'. lia. }
  apply Z.leb_le in Er.
  destruct (0 <=? c) eqn:Ec; simpl.
  2:{ apply Z.leb_gt in Ec. case_decide as E; [| done]. inversion E; subst.
      unfold cellAt; simpl. destruct (at_ cs r'); simpl; [| done].
      unfold at_. destruct (0 <=? c') eqn:E'; [| done].
      apply Z.leb_le in E'. lia. }
  apply Z.leb_le in Ec.
  unfold cellAt; simpl. rewrite at_alter by done.
  destruct (decide (r = r')) as [<- | Hr].
  - destruct (at_ cs r) as [row|]; simpl.
    + rewrite at_alter by done.
      destruct (decide (c = c')) as [<- | Hc].
      * rewrite decide_True by done. done.
      * rewrite decide_False by congruence. done.
    + case_decide; done.
  - rewrite decide_False by congruence. done.
Qed.

Lemma cellAt_updCell_eq f p cs : cellAt (updCell f p cs) p = f <$> cellAt cs p.
Proof. rewrite cellAt_updCell. by rewrite decide_True. Qed.

Lemma cellAt_updCell_ne f p cs q : p ≠ q → cellAt (updCell f p cs) q = cellAt cs q.
Proof. intros. rewrite cellAt_updCell. by rewrite decide_False. Qed.

(** ** Counting cells *)

Lemma sum_list_with_alter {A} (w : A → nat) (g : A → A) l i a :
  l !! i = Some a →
  (sum_list_with w (alter g i l) + w a = sum_list_with w l + w (g a))%nat.
Proof.
  revert i. induction l as [| b l IH]; intros [| i] H; simplify_eq/=; [lia |].
  specialize (IH _ H). lia.
Qed.

Lemma sum_list_with_le {A} (w w' : A → nat) l :
  (∀ a, w a ≤ w' a)%nat → (sum_list_with w l ≤ sum_list_with w' l)%nat.
Proof.
  intros H. induction l as [| a l IH]; simpl; [done |]. specialize (H a). lia.
Qed.

Lemma sum_list_with_lookup_lt {A} (w w' : A → nat) l i a :
  (∀ a, w a ≤ w' a)%nat → l !! i = Some a → (w a < w' a)%nat →
  (sum_list_with w l < sum_list_with w' l)%nat.
Proof.
  intros Hle. revert i. induction l as [| b l IH]; intros [| i] H Hlt; simplify_eq/=.
  - pose proof (sum_list_with_le w w' l Hle). lia.
  - specialize (IH _ H Hlt). specialize (Hle b). lia.
Qed.

Lemma countCells_le_total P cs : (countCells P cs ≤ totalCells cs)%nat.
Proof.
  apply sum_list_with_le. intros row.
  induction row as [| c row IH]; simpl; [done |]. destruct (P c); lia.
Qed.

Lemma countCells_lt_total P cs p c :
  cellAt cs p = Some c → P c = false → (countCells P cs < totalCells cs)%nat.
Proof.
  intros (row & [_ Hrow]%at_Some & [_ Hc]%at_Some)%cellAt_Some HP.
  eapply sum_list_with_lookup_lt; [| exact Hrow |].
  - intros r. induction r as [| c' r IH]; simpl; [done |]. destruct (P c'); lia.
  - clear Hrow. revert Hc. generalize (Z.to_nat p.2). intros i; revert i.
    induction row as [| c' row IH]; intros [| i] H; simplify_eq/=.
    + rewrite HP. assert (sum_list_with (λ c, if P c then 1 else 0) row ≤ length row)%nat; [| lia].
      clear. induction row as [| c' r IH]; simpl; [done |]. destruct (P c'); lia.
    + specialize (IH _ H). destruct (P c'); lia.
Qed.

(** Counting after a mutation. *)
Lemma countCells_updCell P f p cs c :
  cellAt cs p = Some c →
  (countCells P (updCell f p cs) + (if P c then 1 else 0)
   = countCells P cs + (if P (f c) then 1 else 0))%nat.
Proof.
  intros H. pose proof (cellAt_nonneg _ _ _ H) as [H1 H2].
  apply cellAt_Some in H as (row & [_ Hrow]%at_Some & [_ Hc]%at_Some).
  unfold updCell.
  destruct (Z.leb_spec 0 p.1); [| lia]. destruct (Z.leb_spec 0 p.2); [| lia]. simpl.
  unfold countCells.
  pose proof (sum_list_with_alter
    (sum_list_with (λ c, if P c then 1 else 0)%nat)
    (alter f (Z.to_nat p.2)) cs _ _ Hrow) as E1.
  pose proof (sum_list_with_alter (λ c, if P c then 1 else 0)%nat f row _ _ Hc) as E2.
  lia.
Qed.

(** ** Well-formed boards *)

Lemma wellFormed_lookup s p :
  wellFormed s →
  position <$> cellAt (cells s) p = if decide (inBoard s p) then Some p else None.
Proof.
  intros Hwf. unfold cellAt, inBoard. destruct p as [r c]; simpl.
  assert ((λ row : list Cell, position <$> row) <$> at_ (cells s) r
          = if decide (0 ≤ r < numberOfRowes s)
            then Some ((λ col, (r, col)) <$> seqZ 0 (numberOfCols s)) else None) as Hrow.
  { rewrite <- at_fmap, Hwf. unfold positions. rewrite at_fmap, at_seqZ.
    case_decide; done. }
  destruct (at_ (cells s) r) as [row|]; simpl in *.
  - destruct (decide (0 ≤ r < numberOfRowes s)); [| done].
    injection Hrow as Hrow. rewrite <- at_fmap, Hrow, at_fmap, at_seqZ.
    destruct (decide (0 ≤ c < numberOfCols s)).
    + rewrite decide_True by done. done.
    + rewrite decide_False by tauto. done.
  - destruct (decide (0 ≤ r < numberOfRowes s)); [done |].
    rewrite decide_False by tauto. done.
Qed.

(** A cell is stored at [p] exactly when [p] is on the board, and it then
    carries the coordinates of [p]. *)
Lemma wellFormed_cellAt s p c :
  wellFormed s → cellAt (cells s) p = Some c → inBoard s p ∧ y c = p.1 ∧ x c = p.2.
Proof.
  intros Hwf H. pose proof (wellFormed_lookup s p Hwf) as E. rewrite H in E. simpl in E.
  case_decide; [| done]. injection E as E. destruct p; injection E as ??. auto.
Qed.

Lemma wellFormed_inBoard s p :
  wellFormed s → inBoard s p → ∃ c, cellAt (cells s) p = Some c ∧ y c = p.1 ∧ x c = p.2.
Proof.
  intros Hwf H. pose proof (wellFormed_lookup s p Hwf) as E.
  rewrite decide_True in E by done.
  destruct (cellAt (cells s) p) as [c|] eqn:Hc; [| done].
  exists c. split; [done |]. by eapply (wellFormed_cellAt s p c).
Qed.

Lemma length_positions rows cols :
  sum_list_with length (positions rows cols) = (Z.to_nat rows * Z.to_nat cols)%nat.
Proof.
  unfold positions. rewrite <- (length_seqZ 0 rows).
  induction (seqZ 0 rows) as [| i l IH]; simpl; [done |].
  rewrite length_fmap, length_seqZ. f_equal. apply IH.
Qed.

Lemma totalCells_wellFormed s :
  wellFormed s →
  totalCells (cells s) = (Z.to_nat (numberOfRowes s) * Z.to_nat (numberOfCols s))%nat.
Proof.
  intros Hwf. rewrite <- length_positions, <- Hwf. unfold totalCells.
  induction (cells s) as [| row cs IH]; simpl; [done |].
  by rewrite IH, length_fmap.
Qed.

(** ** Relating two boards cell by cell *)

Section boardRel.
Context (R : Cell → Cell → Prop).

Lemma boardRel_cellAt_l cs cs' p c :
  boardRel R cs cs' → cellAt cs p = Some c →
  ∃ c', cellAt cs' p = Some c' ∧ R c c'.
Proof.
  intros H (row & [? Hrow]%at_Some & [? Hc]%at_Some)%cellAt_Some.
  destruct (Forall2_lookup_l _ _ _ _ _ H Hrow) as (row' & Hrow' & Hrows).
  destruct (Forall2_lookup_l _ _ _ _ _ Hrows Hc) as (c' & Hc' & HR).
  exists c'. split; [| done]. apply cellAt_Some. exists row'.
  split; apply at_Some; done.
Qed.

Lemma boardRel_cellAt_r cs cs' p c' :
  boardRel R cs cs' → cellAt cs' p = Some c' →
  ∃ c, cellAt cs p = Some c ∧ R c c'.
Proof.
  intros H (row' & [? Hrow']%at_Some & [? Hc']%at_Some)%cellAt_Some.
  destruct (Forall2_lookup_r _ _ _ _ _ H Hrow') as (row & Hrow & Hrows).
  destruct (Forall2_lookup_r _ _ _ _ _ Hrows Hc') as (c & Hc & HR).
  exists c. split; [| done]. apply cellAt_Some. exists row.
  split; apply at_Some; done.
Qed.

Lemma boardRel_refl cs : (∀ c, R c c) → boardRel R cs cs.
Proof.
  intros H. apply Forall_Forall2_diag, Forall_forall. intros row _.
  apply Forall_Forall2_diag, Forall_forall. auto.
Qed.

Lemma boardRel_trans cs1 cs2 cs3 :
  (∀ a b c, R a b → R b c → R a c) →
  boardRel R cs1 cs2 → boardRel R cs2 cs3 → boardRel R cs1 cs3.
Proof.
  intros HR H. revert cs3. induction H as [| r1 r2 cs1 cs2 Hr H IH]; intros cs3 H3.
  - inversion H3. constructor.
  - inversion H3 as [| ? r3 ? cs3' Hr' H3']; subst. constructor; [| by apply IH].
    clear -HR Hr Hr'. revert r3 Hr'. induction Hr; intros r3 Hr'; inversion Hr'; subst;
      constructor; eauto.
Qed.

Lemma boardRel_updCell f p cs :
  (∀ c, R c c) → (∀ c, cellAt cs p = Some c → R c (f c)) →
  boardRel R cs (updCell f p cs).
Proof.
  intros Hrefl Hf. unfold updCell.
  destruct (Z.leb_spec 0 p.1); [| by apply boardRel_refl].
  destruct (Z.leb_spec 0 p.2); [| by apply boardRel_refl]. simpl.
  apply Forall2_alter_r; [by apply boardRel_refl |].
  intros row ? Hrow ? _; simplify_eq.
  apply Forall2_alter_r; [apply Forall_Forall2_diag, Forall_forall; auto |].
  intros c ? Hc ? _; simplify_eq. apply Hf.
  apply cellAt_Some. exists row. split; apply at_Some; done.
Qed.

Lemma boardRel_fmap g cs :
  (∀ c, R c (g c)) →
  boardRel R cs ((λ row : list Cell, g <$> row) <$> cs).
Proof.
  intros Hg. apply Forall2_fmap_r, Forall_Forall2_diag, Forall_forall.
  intros row _. simpl. apply Forall2_fmap_r, Forall_Forall2_diag, Forall_forall.
  intros c _. apply Hg.
Qed.

End boardRel.

Lemma boardRel_impl (R R' : Cell → Cell → Prop) cs cs' :
  (∀ c c', R c c' → R' c c') → boardRel R cs cs' → boardRel R' cs cs'.
Proof.
  intros H HR. eapply Forall2_impl; [exact HR |].
  intros ?? Hrow. eapply Forall2_impl; [exact Hrow | exact H].
Qed.

Lemma countCells_le_rel (R : Cell → Cell → Prop) (P P' : Cell → bool) cs cs' :
  (∀ c c', R c c' → P' c' = true → P c = true) →
  boardRel R cs cs' → (countCells P' cs' ≤ countCells P cs)%nat.
Proof.
  intros HP H. unfold countCells.
  induction H as [| row row' cs cs' Hrow H IH]; simpl; [done |].
  assert (sum_list_with (λ c, if P' c then 1 else 0) row'
          ≤ sum_list_with (λ c, if P c then 1 else 0) row)%nat; [| lia].
  clear -HP Hrow. induction Hrow as [| c c' row row' Hc Hrow IH]; simpl; [done |].
  specialize (HP _ _ Hc). destruct (P' c'); [rewrite HP by done |]; lia.
Qed.

Lemma countCells_eq_rel (R : Cell → Cell → Prop) (P : Cell → bool) cs cs' :
  (∀ c c', R c c' → P c' = P c) →
  boardRel R cs cs' → countCells P cs' = countCells P cs.
Proof.
  intros HP H. apply Nat.le_antisymm.
  - eapply countCells_le_rel; [| exact H]. intros c c' Hc. by rewrite (HP _ _ Hc).
  - unfold countCells.
    induction H as [| row row' cs cs' Hrow H IH]; simpl; [done |].
    assert (sum_list_with (λ c, if P c then 1 else 0) row
            ≤ sum_list_with (λ c, if P c then 1 else 0) row')%nat; [| lia].
    clear -HP Hrow. induction Hrow as [| c c' row row' Hc Hrow IH]; simpl; [done |].
    rewrite (HP _ _ Hc). lia.
Qed.

(** ** What a reveal leaves alone *)

Lemma cellGrows_refl c : cellGrows c c.
Proof. by repeat split. Qed.

Lemma cellGrows_trans a b c : cellGrows a b → cellGrows b c → cellGrows a c.
Proof. unfold cellGrows. intros (?&?&?&?) (?&?&?&?). repeat split; [congruence .. | auto]. Qed.

Lemma cellKeeps_refl c : cellKeeps c c.
Proof. split; [apply cellGrows_refl | done]. Qed.

Lemma cellKeeps_trans a b c : cellKeeps a b → cellKeeps b c → cellKeeps a c.
Proof.
  intros (Hab & Hr & Hf) (Hbc & Hr' & Hf').
  split; [by eapply cellGrows_trans |]. split.
  - intros H. specialize (Hr H). subst b. auto.
  - intros H. specialize (Hf H). subst b. auto.
Qed.

Lemma cellKeeps_grows c c' : cellKeeps c c' → cellGrows c c'.
Proof. by intros [? _]. Qed.

Lemma later_refl R s : (∀ c, R c c) → later R s s.
Proof. intros. split; try done. by apply boardRel_refl. Qed.

Lemma later_trans R s1 s2 s3 :
  (∀ a b c, R a b → R b c → R a c) → later R s1 s2 → later R s2 s3 → later R s1 s3.
Proof.
  intros HR [] []. split; try congruence. by eapply boardRel_trans.
Qed.

Lemma later_impl (R R' : Cell → Cell → Prop) s s' :
  (∀ c c', R c c' → R' c c') → later R s s' → later R' s s'.
Proof. intros H []. split; try done. by eapply boardRel_impl. Qed.

Lemma wellFormed_boardRel (R : Cell → Cell → Prop) s s' :
  (∀ c c', R c c' → position c' = position c) →
  numberOfRowes s' = numberOfRowes s → numberOfCols s' = numberOfCols s →
  boardRel R (cells s) (cells s') → wellFormed s → wellFormed s'.
Proof.
  unfold wellFormed. intros HR Hrows Hcols H Hwf. rewrite Hrows, Hcols, <- Hwf.
  symmetry. apply list_eq_Forall2, Forall2_fmap.
  eapply Forall2_impl; [exact H |].
  intros row row' Hrow. simpl. apply list_eq_Forall2, Forall2_fmap.
  eapply Forall2_impl; [exact Hrow |]. intros c c' ?%HR. done.
Qed.

Section later.
Context (s s' : Game) (H : later cellGrows s s').

Lemma later_cellAt_l p c :
  cellAt (cells s) p = Some c → ∃ c', cellAt (cells s') p = Some c' ∧ cellGrows c c'.
Proof. apply boardRel_cellAt_l, H. Qed.

Lemma later_cellAt_r p c' :
  cellAt (cells s') p = Some c' → ∃ c, cellAt (cells s) p = Some c ∧ cellGrows c c'.
Proof. apply boardRel_cellAt_r, H. Qed.

Lemma later_cellAt_None p : cellAt (cells s) p = None → cellAt (cells s') p = None.
Proof.
  intros E. destruct (cellAt (cells s') p) as [c'|] eqn:E'; [| done].
  apply later_cellAt_r in E' as (c & ? & _). congruence.
Qed.

Lemma later_wellFormed : wellFormed s → wellFormed s'.
Proof.
  destruct H. apply (wellFormed_boardRel cellGrows); try done.
  by intros c c' (? & _).
Qed.

Lemma later_neighbourhood cx cy : neighbourhood s' cx cy = neighbourhood s cx cy.
Proof.
  unfold neighbourhood. by rewrite (later_rows _ _ _ H), (later_cols _ _ _ H).
Qed.

Lemma later_unrevealed : (unrevealed s' ≤ unrevealed s)%nat.
Proof.
  eapply countCells_le_rel; [| apply (later_cells _ _ _ H)].
  intros c c' (_ & _ & _ & Hr) E. destruct (isReveal c); [| done].
  rewrite Hr in E; done.
Qed.

Lemma later_totalCells : totalCells (cells s') = totalCells (cells s).
Proof.
  unfold totalCells. induction (later_cells _ _ _ H) as [| row row' cs cs' Hrow ? IH];
    simpl; [done |].
  by rewrite IH, (Forall2_length _ _ _ Hrow).
Qed.

End later.

Lemma processCell_grows s p n : later cellGrows s (processCell s p n).
Proof.
  split; try done. simpl. apply boardRel_updCell; [apply cellGrows_refl |].
  intros c _. by repeat split.
Qed.

Lemma processCell_keeps s p n c :
  cellAt (cells s) p = Some c → isReveal c = false → isFlagged c = false →
  later cellKeeps s (processCell s p n).
Proof.
  intros Hc Hr Hf. split; try done. simpl.
  apply boardRel_updCell; [apply cellKeeps_refl |].
  intros c' ?; simplify_eq. split; [by repeat split |]. split; congruence.
Qed.

Lemma endGame_win_keeps s : later cellKeeps s (endGame true s).
Proof. split; try done. simpl. apply boardRel_refl, cellKeeps_refl. Qed.

Lemma endGame_loss_grows s : later cellGrows s (endGame false s).
Proof.
  split; try done. simpl. apply boardRel_fmap.
  intros c. destruct (isMine c); [by repeat split | apply cellGrows_refl].
Qed.

(** ** The cascade, step by step *)

Lemma nstep_keeps s s' : nstep s s' → later cellKeeps s s'.
Proof.
  destruct 1; [by eapply processCell_keeps | apply endGame_win_keeps].
Qed.

Lemma steps_keeps s s' : rtc nstep s s' → later cellKeeps s s'.
Proof.
  induction 1 as [| s1 s2 s3 H12 _ IH].
  - apply later_refl, cellKeeps_refl.
  - eapply later_trans; [apply cellKeeps_trans | by apply nstep_keeps | done].
Qed.

Lemma steps_grows s s' : rtc nstep s s' → later cellGrows s s'.
Proof. intros H. eapply later_impl; [apply cellKeeps_grows | by apply steps_keeps]. Qed.

(** Nothing happens once the game is finished. *)
Lemma steps_finished s s' : rtc nstep s s' → isGameFinished s = true → s' = s.
Proof.
  destruct 1 as [| s1 s2 s3 H12 _]; [done |]. destruct H12; congruence.
Qed.

(** A cascade finishes a game only by winning it. *)
Lemma steps_win s s' :
  rtc nstep s s' → isGameFinished s = false → isGameFinished s' = true →
  emotion s' = positive ∧ revealedCells s' = cellsToReveal s'.
Proof.
  induction 1 as [| s1 s2 s3 H12 H23 IH]; [congruence |]. intros Hs1 Hs3.
  destruct (isGameFinished s2) eqn:E; [| by apply IH].
  apply steps_finished in H23; [| done]. subst s3.
  destruct H12; [simpl in *; congruence | done].
Qed.

(** Every step of a cascade counts one cell and reveals one cell. *)
Lemma steps_count s s' :
  rtc nstep s s' →
  revealedCells s' + Z.of_nat (unrevealed s') = revealedCells s + Z.of_nat (unrevealed s).
Proof.
  induction 1 as [| s1 s2 s3 H12 _ IH]; [done |]. rewrite IH. clear IH.
  destruct H12 as [s p cell n _ Hc _ Hr _ _ | s]; [| done].
  pose proof (countCells_updCell (λ c, negb (isReveal c))
    (λ c, revealCell (setValue n c)) p (cells s) cell Hc) as E.
  simpl in E. rewrite Hr in E. simpl in E. unfold unrevealed. simpl. lia.
Qed.

(** ** What [#clickCell] does, whenever it returns *)

Lemma countMines_ge cs ps k n : countMines cs ps k = Some n → k ≤ n.
Proof.
  revert k. induction ps as [| p ps IH]; intros k H; simpl in H; [simplify_eq; lia |].
  destruct (cellAt cs p) as [c|]; [| done]. apply IH in H. destruct (isMine c); lia.
Qed.

Lemma countMines_none cs ps k p c :
  countMines cs ps k = Some k → p ∈ ps → cellAt cs p = Some c → isMine c = false.
Proof.
  induction ps as [| q ps IH]; intros H Hin Hc; [by apply elem_of_nil in Hin |].
  simpl in H. destruct (cellAt cs q) as [c'|] eqn:E; [| done].
  destruct (isMine c') eqn:Em; [apply countMines_ge in H; lia |].
  apply elem_of_cons in Hin as [-> | Hin]; [congruence | auto].
Qed.

Lemma revealAdjacent_steps click ps s s' :
  cascades click →
  (∀ p c, p ∈ ps → cellAt (cells s) p = Some c → isMine c = false) →
  revealAdjacent click ps s = Done s' → rtc nstep s s'.
Proof.
  intros Hclick. revert s. induction ps as [| p ps IH]; intros s Hmines H; simpl in H.
  { by simplify_eq. }
  destruct (cellAt (cells s) p) as [adj|] eqn:Hadj; [| done].
  assert (isMine adj = false) as Hm by (eapply Hmines; [left | done]).
  destruct (isReveal adj) eqn:Hr.
  { apply IH; [| done]. intros q c Hq. apply Hmines. by right. }
  destruct (click s p) as [s1| |] eqn:Hs1; try done.
  pose proof (Hclick _ _ _ _ Hadj Hr Hm Hs1) as H1.
  etrans; [exact H1 |]. apply IH; [| done].
  intros q c Hq Hc.
  destruct (later_cellAt_r _ _ (steps_grows _ _ H1) _ _ Hc) as (c0 & Hc0 & _ & E & _).
  rewrite E. eapply Hmines; [by right | done].
Qed.

Lemma setCellValue_steps click s p s' :
  cascades click → setCellValue click s p = Done s' →
  ∃ n, minesAround s p = Some n ∧ rtc nstep (processCell s p n) s'.
Proof.
  intros Hclick H. unfold setCellValue in H. unfold minesAround.
  destruct (cellAt (cells s) p) as [cell|]; [| done]. simpl.
  destruct (countMines _ _ 0) as [n|] eqn:Hn; [| done]. exists n. split; [done |].
  destruct (Z.eqb_spec n 0) as [-> | _]; [| by simplify_eq].
  eapply revealAdjacent_steps; [done | | done].
  intros q c Hq Hc.
  destruct (later_cellAt_r _ _ (processCell_grows s p 0) _ _ Hc) as (c0 & Hc0 & _ & E & _).
  rewrite E. by eapply countMines_none.
Qed.

Lemma winCheck_steps s : rtc nstep s (winCheck s).
Proof.
  unfold winCheck. destruct (Z.eqb_spec (revealedCells s) (cellsToReveal s)); simpl; [| done].
  destruct (isGameFinished s) eqn:E; simpl; [done |].
  apply rtc_once. by constructor.
Qed.

Lemma clickCell_cascades fuel : cascades (clickCell fuel).
Proof.
  induction fuel as [| fuel IH]; intros s p cell s' Hc Hr Hm H; simpl in H; [done |].
  destruct (isGameFinished s) eqn:Hfin; [by simplify_eq |].
  rewrite Hc in H. destruct (isFlagged cell) eqn:Hf; [by simplify_eq |].
  rewrite Hm in H.
  destruct (setCellValue (clickCell fuel) s p) as [s2| |] eqn:H2; try done.
  apply setCellValue_steps in H2 as (n & Hn & H2); [| done].
  eapply rtc_l; [by eapply (nstep_reveal s p cell n) |].
  etrans; [exact H2 |].
  replace s' with (winCheck s2); [apply winCheck_steps |].
  unfold winCheck. destruct (_ && _); by simplify_eq.
Qed.

Lemma clickCell_clicked fuel s p s' : clickCell fuel s p = Done s' → clicked s p s'.
Proof.
  destruct fuel as [| fuel]; simpl; [done |]. intros H.
  destruct (isGameFinished s) eqn:Hfin; [simplify_eq; by constructor |].
  destruct (cellAt (cells s) p) as [cell|] eqn:Hc; [| done].
  destruct (isFlagged cell) eqn:Hf; [simplify_eq; by econstructor |].
  destruct (setCellValue _ _ p) as [s2| |] eqn:H2; try done.
  apply setCellValue_steps in H2 as (n & Hn & H2); [| apply clickCell_cascades].
  replace s' with (winCheck s2).
  - by eapply clicked_reveal.
  - unfold winCheck. destruct (_ && _); by simplify_eq.
Qed.

(** ** [#clickCell] returns *)

Lemma elem_of_forRange lo hi i : i ∈ forRange lo hi ↔ lo ≤ i ≤ hi.
Proof. unfold forRange. rewrite elem_of_seqZ. lia. Qed.

Lemma elem_of_neighbourhood s cx cy q :
  q ∈ neighbourhood s cx cy ↔
    (Z.max (cy - 1) 0 ≤ q.1 ≤ Z.min (cy + 1) (numberOfRowes s - 1))
    ∧ (Z.max (cx - 1) 0 ≤ q.2 ≤ Z.min (cx + 1) (numberOfCols s - 1)).
Proof.
  unfold neighbourhood. rewrite list_elem_of_bind. split.
  - intros (row & (col & -> & Hcol%elem_of_forRange)%list_elem_of_fmap & Hrow%elem_of_forRange).
    done.
  - intros [Hrow Hcol]. exists q.1. split; [| by apply elem_of_forRange].
    apply list_elem_of_fmap. exists q.2. split; [by destruct q | by apply elem_of_forRange].
Qed.

Lemma neighbourhood_inBoard s cx cy q : q ∈ neighbourhood s cx cy → inBoard s q.
Proof. rewrite elem_of_neighbourhood. unfold inBoard. lia. Qed.

Lemma countMines_is_Some cs ps k :
  (∀ p, p ∈ ps → is_Some (cellAt cs p)) → is_Some (countMines cs ps k).
Proof.
  revert k. induction ps as [| p ps IH]; intros k H; simpl; [done |].
  destruct (H p) as [c ->]; [left |]. apply IH. intros q Hq. apply H. by right.
Qed.

Lemma minesAround_is_Some s p :
  wellFormed s → is_Some (cellAt (cells s) p) → is_Some (minesAround s p).
Proof.
  intros Hwf [cell Hc]. unfold minesAround. rewrite Hc. simpl.
  apply countMines_is_Some. intros q Hq%neighbourhood_inBoard.
  destruct (wellFormed_inBoard s q Hwf Hq) as (c & -> & _). done.
Qed.

Lemma unrevealed_processCell s p n cell :
  cellAt (cells s) p = Some cell →
  (unrevealed (processCell s p n) + (if isReveal cell then 0 else 1) = unrevealed s)%nat.
Proof.
  intros Hc.
  pose proof (countCells_updCell (λ c, negb (isReveal c))
    (λ c, revealCell (setValue n c)) p (cells s) cell Hc) as E.
  simpl in E. unfold unrevealed. simpl. destruct (isReveal cell); simpl in E; lia.
Qed.

Lemma revealAdjacent_returns click m ps s :
  cascades click → returns m click → wellFormed s →
  (∀ p, p ∈ ps → inBoard s p) →
  (∀ p c, p ∈ ps → cellAt (cells s) p = Some c → isMine c = false) →
  (unrevealed s ≤ m)%nat →
  ∃ s', revealAdjacent click ps s = Done s'.
Proof.
  intros Hsteps Hret. revert s. induction ps as [| p ps IH]; intros s Hwf Hin Hmines Hm; simpl.
  { by eexists. }
  destruct (wellFormed_inBoard s p Hwf) as (adj & Hadj & _); [apply Hin; left |].
  rewrite Hadj.
  assert (isMine adj = false) as Hmine by (eapply Hmines; [left | done]).
  destruct (isReveal adj) eqn:Hr.
  { apply IH; try done; intros q; [intros ? | intros c ?].
    - apply Hin. by right.
    - apply Hmines. by right. }
  destruct (Hret s p adj Hwf Hadj Hr Hmine Hm) as [s1 Hs1]. rewrite Hs1.
  pose proof (steps_grows _ _ (Hsteps _ _ _ _ Hadj Hr Hmine Hs1)) as H1.
  apply IH.
  - by eapply later_wellFormed.
  - intros q Hq. unfold inBoard. rewrite (later_rows _ _ _ H1), (later_cols _ _ _ H1).
    apply Hin. by right.
  - intros q c Hq Hc.
    destruct (later_cellAt_r _ _ H1 _ _ Hc) as (c0 & Hc0 & _ & E & _).
    rewrite E. eapply Hmines; [by right | done].
  - pose proof (later_unrevealed _ _ H1). lia.
Qed.

Lemma setCellValue_returns click m s p cell :
  cascades click → returns m click → wellFormed s →
  cellAt (cells s) p = Some cell →
  (unrevealed s ≤ m + (if isReveal cell then 0 else 1))%nat →
  ∃ s', setCellValue click s p = Done s'.
Proof.
  intros Hsteps Hret Hwf Hc Hm. unfold setCellValue. rewrite Hc.
  destruct (minesAround_is_Some s p Hwf) as [n Hn]; [by eexists |].
  unfold minesAround in Hn. rewrite Hc in Hn. simpl in Hn. rewrite Hn.
  destruct (Z.eqb_spec n 0) as [-> | _]; [| by eexists].
  pose proof (processCell_grows s p 0) as H1.
  eapply revealAdjacent_returns; try done.
  - by eapply later_wellFormed.
  - intros q Hq%neighbourhood_inBoard. done.
  - intros q c Hq Hq'.
    destruct (later_cellAt_r _ _ H1 _ _ Hq') as (c0 & Hc0 & _ & E & _).
    rewrite E. by eapply countMines_none.
  - pose proof (unrevealed_processCell s p 0 cell Hc). lia.
Qed.

Lemma unrevealed_pos s p cell :
  cellAt (cells s) p = Some cell → isReveal cell = false → (0 < unrevealed s)%nat.
Proof.
  intros Hc Hr. pose proof (unrevealed_processCell s p 0 cell Hc) as E.
  rewrite Hr in E. lia.
Qed.

Lemma clickCell_returns fuel : returns fuel (clickCell fuel).
Proof.
  induction fuel as [| fuel IH]; intros s p cell Hwf Hc Hr Hm Hle.
  { pose proof (unrevealed_pos s p cell Hc Hr). lia. }
  simpl. destruct (isGameFinished s); [by eexists |]. rewrite Hc.
  destruct (isFlagged cell); [by eexists |]. rewrite Hm.
  destruct (setCellValue_returns (clickCell fuel) fuel s p cell) as [s2 ->]; try done.
  - apply clickCell_cascades.
  - rewrite Hr. lia.
  - destruct (_ && _); by eexists.
Qed.

(** A call of [#clickCell] on a cell of the board returns when the fuel is at
    least the number of cells. *)
Lemma clickCell_terminates fuel s p :
  wellFormed s → is_Some (cellAt (cells s) p) →
  (Z.to_nat (numberOfRowes s * numberOfCols s) ≤ fuel)%nat →
  ∃ s', clickCell fuel s p = Done s'.
Proof.
  intros Hwf [cell Hc] Hfuel.
  pose proof (wellFormed_cellAt s p cell Hwf Hc) as ([Hrow Hcol] & _).
  pose proof (totalCells_wellFormed s Hwf) as Htot.
  destruct fuel as [| fuel]; [nia |]. simpl.
  destruct (isGameFinished s); [by eexists |]. rewrite Hc.
  destruct (isFlagged cell); [by eexists |].
  set (s1 := if isMine cell then endGame false s else s).
  assert (later cellGrows s s1) as H1.
  { subst s1. destruct (isMine cell); [apply endGame_loss_grows |].
    apply later_refl, cellGrows_refl. }
  destruct (later_cellAt_l _ _ H1 _ _ Hc) as (cell1 & Hc1 & _).
  destruct (setCellValue_returns (clickCell fuel) fuel s1 p cell1) as [s2 ->]; try done.
  - apply clickCell_cascades.
  - apply clickCell_returns.
  - by eapply later_wellFormed.
  - pose proof (later_totalCells _ _ H1) as Htot1.
    pose proof (countCells_le_total (λ c, negb (isReveal c)) (cells s1)).
    unfold unrevealed. destruct (isReveal cell1) eqn:Hr1; [| nia].
    pose proof (countCells_lt_total (λ c, negb (isReveal c)) (cells s1) p cell1 Hc1) as Hlt.
    simpl in Hlt. rewrite Hr1 in Hlt. specialize (Hlt eq_refl). nia.
  - destruct (_ && _); by eexists.
Qed.

(** ** Boards used as examples *)

Example row4_new : newGame [0%Q; (3 # 4)%Q] initialGame 1 4 1 = Done row4.
Proof. reflexivity. Qed.

Example row3_new : newGame [0%Q; (1 # 3)%Q] initialGame 1 3 1 = Done row3.
Proof. reflexivity. Qed.

Example row5_new : newGame [0%Q; (4 # 5)%Q] initialGame 1 5 1 = Done row5.
Proof. reflexivity. Qed.

Example row6_new : newGame [0%Q; (5 # 6)%Q] initialGame 1 6 1 = Done row6.
Proof. reflexivity. Qed.

Example row7_new :
  newGame [0%Q; (5 # 7)%Q; 0%Q; (6 # 7)%Q] initialGame 1 7 2 = Done row7.
Proof. reflexivity. Qed.

Example square3_new :
  newGame [(2 # 3)%Q; (2 # 3)%Q] initialGame 3 3 1 = Done square3.
Proof. reflexivity. Qed.

(** A collision: the second pair of numbers hits the mine again, the loop
    draws a third pair. *)
Example placement_retries :
  mineCells (stateAfter initialGame
    (newGame [0%Q; 0%Q; 0%Q; 0%Q; 0%Q; (1 # 2)%Q] initialGame 1 2 2)) = 2%nat.
Proof. vm_compute. reflexivity. Qed.

(** The mines of [square3] as [#setCellValue] counts them from the first
    cell: none, and the whole board but the mine is revealed, which wins. *)
Example square3_cascade :
  ∃ s, clickCell 9 square3 (0, 0) = Done s
       ∧ revealedCells s = 8 ∧ isGameFinished s = true ∧ emotion s = positive.
Proof. eexists. split; [vm_compute; reflexivity | done]. Qed.

(** ** Finished games (C8) *)

Lemma handle_finished fuel s r :
  isGameFinished s = true →
  handle (S fuel) s r = Done s ∨ handle (S fuel) s r = TypeError s.
Proof.
  intros Hfin. destruct r as [row col | row col]; simpl.
  - unfold handleCellClick. destruct (at_ (cells s) row); [| by right].
    simpl. rewrite Hfin. by left.
  - unfold handleCellContextMenu. destruct (cellAt _ _) as [cell|]; [| by right].
    rewrite Hfin, orb_true_r. by left.
Qed.

(** C8: once the game is finished (won or lost), every reveal request and
    every flag request returns, or stops on the [TypeError] of a position
    without cell, with the game unchanged, all its cells and counters
    included; and so does every sequence of such requests. *)
Theorem C8_finished_game_is_frozen fuel s :
  isGameFinished s = true →
  (∀ r, handle (S fuel) s r = Done s ∨ handle (S fuel) s r = TypeError s)
  ∧ (∀ rs, play (S fuel) s rs = s).
Proof.
  intros Hfin. split; [intros r; by apply handle_finished |].
  induction rs as [| r rs IH]; simpl; [done |].
  destruct (handle_finished fuel s r Hfin) as [E | E]; simpl in E; rewrite E; apply IH.
Qed.

Lemma C8_finished_game_is_frozen_witness :
  (emotion row4_lost = negative
   ∧ play 4 row4_lost [Reveal 0 0; Flag 0 1; Reveal 0 3; Flag 0 3] = row4_lost)
  ∧ (emotion row4_won = positive
     ∧ play 4 row4_won [Reveal 0 3; Flag 0 3; Flag 0 0] = row4_won).
Proof.
  split; (split; [reflexivity |]).
  - apply (C8_finished_game_is_frozen 3 row4_lost). reflexivity.
  - apply (C8_finished_game_is_frozen 3 row4_won). reflexivity.
Defined.

(** ** Positions off the board (C10) *)

Lemma wellFormed_off_board s p : wellFormed s → ¬ inBoard s p → cellAt (cells s) p = None.
Proof.
  intros Hwf Hp. destruct (cellAt (cells s) p) as [c|] eqn:E; [| done].
  by apply wellFormed_cellAt in E as [? _].
Qed.

(** C10: a reveal request or a flag request for a position that is not on the
    board changes nothing.  The source has no test of its own for this: the
    request ends on the [TypeError] of reading a property of [undefined],
    before anything was written (a reveal request in a finished game whose
    row exists returns at once instead). *)
Theorem C10_off_board_requests_change_nothing fuel s rowIndex colIndex :
  wellFormed s → ¬ inBoard s (rowIndex, colIndex) →
  (handleCellClick (S fuel) s rowIndex colIndex = TypeError s
   ∨ (isGameFinished s = true
      ∧ handleCellClick (S fuel) s rowIndex colIndex = Done s))
  ∧ handleCellContextMenu s rowIndex colIndex = TypeError s.
Proof.
  intros Hwf Hp. pose proof (wellFormed_off_board s _ Hwf Hp) as E. split.
  - unfold handleCellClick. destruct (at_ (cells s) rowIndex); [| by left].
    simpl. rewrite E. destruct (isGameFinished s); [by right | by left].
  - unfold handleCellContextMenu. by rewrite E.
Qed.

Lemma C10_off_board_requests_change_nothing_witness :
  (handleCellClick 4 row4 0 4 = TypeError row4
   ∨ (isGameFinished row4 = true ∧ handleCellClick 4 row4 0 4 = Done row4))
  ∧ handleCellContextMenu row4 0 4 = TypeError row4.
Proof.
  apply (C10_off_board_requests_change_nothing 3 row4 0 4).
  - reflexivity.
  - unfold inBoard. simpl. lia.
Defined.

Example off_board_examples :
  handleCellClick 4 row4 1 0 = TypeError row4
  ∧ handleCellClick 4 row4 (-1) 0 = TypeError row4
  ∧ handleCellContextMenu row4 0 (-1) = TypeError row4
  ∧ handleCellClick 4 row4_lost 0 4 = Done row4_lost.
Proof. repeat split. Qed.

(** ** Clicking a mine (C4) *)

Lemma countMines_mine cs ps k n p c :
  countMines cs ps k = Some n → p ∈ ps → cellAt cs p = Some c → isMine c = true → k < n.
Proof.
  revert k. induction ps as [| q ps IH]; intros k H Hin Hc Hm; [by apply elem_of_nil in Hin |].
  simpl in H. destruct (cellAt cs q) as [c'|] eqn:E; [| done].
  apply elem_of_cons in Hin as [-> | Hin].
  - simplify_eq. rewrite Hm in H. apply countMines_ge in H. lia.
  - specialize (IH _ H Hin Hc Hm). destruct (isMine c'); lia.
Qed.

Lemma self_in_neighbourhood s p cell :
  wellFormed s → cellAt (cells s) p = Some cell → p ∈ neighbourhood s (x cell) (y cell).
Proof.
  intros Hwf Hc. destruct (wellFormed_cellAt s p cell Hwf Hc) as ([??] & -> & ->).
  apply elem_of_neighbourhood. lia.
Qed.

Lemma cellAt_processCell s p n q :
  cellAt (cells (processCell s p n)) q
  = if decide (p = q) then (λ c, revealCell (setValue n c)) <$> cellAt (cells s) p
    else cellAt (cells s) q.
Proof. apply cellAt_updCell. Qed.

Lemma setCellValue_unfold click s p cell n :
  cellAt (cells s) p = Some cell → minesAround s p = Some n →
  setCellValue click s p
  = if n =? 0 then revealAdjacent click (neighbourhood s (x cell) (y cell)) (processCell s p n)
    else Done (processCell s p n).
Proof.
  intros Hc Hn. unfold setCellValue, minesAround in *. rewrite Hc in *.
  simpl in Hn. by rewrite Hn.
Qed.

Lemma minesAround_mine s p cell n :
  wellFormed s → cellAt (cells s) p = Some cell → isMine cell = true →
  minesAround s p = Some n → 0 < n.
Proof.
  intros Hwf Hc Hm Hn. unfold minesAround in Hn. rewrite Hc in Hn. simpl in Hn.
  eapply countMines_mine; [exact Hn | by apply self_in_neighbourhood | exact Hc | done].
Qed.

(** C4, amended: a reveal request in a running game for a mined cell that
    carries no flag ends the game as lost, however many cells are still to
    be revealed: the request returns, the game is finished with the face
    of a loss and not of a win, and the clicked cell is revealed. *)
Theorem C4_unflagged_mine_loses fuel s p cell :
  wellFormed s → isGameFinished s = false →
  cellAt (cells s) p = Some cell → isMine cell = true → isFlagged cell = false →
  ∃ s', clickCell (S fuel) s p = Done s'
        ∧ isGameFinished s' = true ∧ emotion s' = negative
        ∧ ∃ cell', cellAt (cells s') p = Some cell' ∧ isReveal cell' = true.
Proof.
  intros Hwf Hfin Hc Hm Hf. simpl. rewrite Hfin, Hc, Hf, Hm.
  pose proof (endGame_loss_grows s) as H1.
  pose proof (later_wellFormed _ _ H1 Hwf) as Hwf1.
  destruct (later_cellAt_l _ _ H1 _ _ Hc) as (cell1 & Hc1 & _ & Hm1 & _).
  destruct (minesAround_is_Some _ p Hwf1) as [n Hn]; [by eexists |].
  rewrite (setCellValue_unfold _ _ _ _ _ Hc1 Hn).
  assert (0 < n) as Hpos by (eapply minesAround_mine; [exact Hwf1 | exact Hc1 | congruence | done]).
  destruct (Z.eqb_spec n 0); [lia |].
  eexists. split.
  { destruct (_ && _) eqn:E; [| reflexivity].
    apply andb_true_iff in E as [_ E]. done. }
  split; [done |]. split; [done |].
  eexists. split; [| shelve].
  rewrite cellAt_processCell, decide_True, Hc1 by done. reflexivity.
  Unshelve. done.
Qed.

Lemma C4_unflagged_mine_loses_witness :
  ∃ s', clickCell 1 row4 (0, 3) = Done s'
        ∧ isGameFinished s' = true ∧ emotion s' = negative
        ∧ ∃ cell', cellAt (cells s') (0, 3) = Some cell' ∧ isReveal cell' = true.
Proof.
  apply (C4_unflagged_mine_loses 0 row4 (0, 3) (mkCell 3 0 0 true false false));
    reflexivity.
Defined.

(** C4 as it stands fails on a flagged mine: the reveal request is ignored
    and the game goes on. *)
Lemma C4_flagged_mine_counterexample :
  let s := play 4 row4 [Flag 0 3] in
  isGameFinished s = false
  ∧ (∃ cell, cellAt (cells s) (0, 3) = Some cell ∧ isMine cell = true)
  ∧ handleCellClick 4 s 0 3 = Done s.
Proof.
  split; [reflexivity |]. split; [by eexists | reflexivity].
Qed.

(** A loss on the last move: one of the two free cells of [row3] is
    revealed, then the mine is clicked; the counter reaches the goal and the
    game is lost, not won. *)
Example loss_with_counter_at_goal :
  let s := play 3 row3 [Reveal 0 0; Reveal 0 1] in
  revealedCells s = cellsToReveal s ∧ emotion s = negative.
Proof. split; reflexivity. Qed.

(** ** The adjacency count (C5) *)

Lemma mineAt_range s q : 0 ≤ mineAt s q ≤ 1.
Proof. unfold mineAt. destruct (cellAt _ _) as [c|]; [destruct (isMine c) |]; lia. Qed.

Lemma adjacentMines_range s p : 0 ≤ adjacentMines s p ≤ 8.
Proof.
  unfold adjacentMines, offsets8, sumZ. simpl.
  repeat match goal with |- context [mineAt s ?q] =>
    let H := fresh in pose proof (mineAt_range s q) as H; generalize dependent (mineAt s q); intros
  end. lia.
Qed.

Lemma sumZ_app {A} (f : A → Z) l1 l2 : sumZ f (l1 ++ l2) = sumZ f l1 + sumZ f l2.
Proof. induction l1 as [| a l1 IH]; simpl; [done |]. rewrite IH. lia. Qed.

Lemma sumZ_fmap {A B} (f : B → Z) (g : A → B) l : sumZ f (g <$> l) = sumZ (λ a, f (g a)) l.
Proof. induction l as [| a l IH]; csimpl; [done |]. by rewrite IH. Qed.

Lemma sumZ_bind {A B} (f : B → Z) (g : A → list B) l :
  sumZ f (l ≫= g) = sumZ (λ a, sumZ f (g a)) l.
Proof.
  induction l as [| a l IH]; csimpl; [done |]. by rewrite sumZ_app, IH.
Qed.

Lemma sumZ_ext {A} (f g : A → Z) l : (∀ a, f a = g a) → sumZ f l = sumZ g l.
Proof. intros H. induction l as [| a l IH]; simpl; [done |]. by rewrite H, IH. Qed.

(** A loop over the clamped range [max (r - 1) 0 .. min (r + 1) (n - 1)] sums
    what a loop over [r - 1 .. r + 1] sums, for a summand that vanishes
    outside [0 .. n - 1]. *)
Lemma sumZ_clamped (g : Z → Z) r n :
  0 ≤ r < n → (∀ i, ¬ (0 ≤ i < n) → g i = 0) →
  sumZ g (forRange (Z.max (r - 1) 0) (Z.min (r + 1) (n - 1))) = g (r - 1) + g r + g (r + 1).
Proof.
  intros Hr Hg. unfold forRange.
  destruct (decide (r = 0)) as [Hlo | Hlo], (decide (r + 1 = n)) as [Hhi | Hhi].
  - replace (Z.min _ _ - Z.max _ _ + 1) with 1 by lia.
    replace (Z.max (r - 1) 0) with r by lia.
    rewrite (Hg (r - 1)), (Hg (r + 1)) by lia.
    rewrite seqZ_cons, seqZ_nil by lia. simpl. lia.
  - replace (Z.min _ _ - Z.max _ _ + 1) with 2 by lia.
    replace (Z.max (r - 1) 0) with r by lia.
    rewrite (Hg (r - 1)) by lia.
    rewrite seqZ_cons, seqZ_cons, seqZ_nil by lia. simpl.
    replace (Z.succ r) with (r + 1) by lia. lia.
  - replace (Z.min _ _ - Z.max _ _ + 1) with 2 by lia.
    replace (Z.max (r - 1) 0) with (r - 1) by lia.
    rewrite (Hg (r + 1)) by lia.
    rewrite seqZ_cons, seqZ_cons, seqZ_nil by lia. simpl.
    replace (Z.succ (r - 1)) with r by lia. lia.
  - replace (Z.min _ _ - Z.max _ _ + 1) with 3 by lia.
    replace (Z.max (r - 1) 0) with (r - 1) by lia.
    rewrite seqZ_cons, seqZ_cons, seqZ_cons, seqZ_nil by lia. simpl.
    replace (Z.succ (r - 1)) with r by lia.
    replace (Z.succ r) with (r + 1) by lia. lia.
Qed.

Lemma countMines_sumZ s ps k :
  (∀ q, q ∈ ps → is_Some (cellAt (cells s) q)) →
  countMines (cells s) ps k = Some (k + sumZ (mineAt s) ps).
Proof.
  revert k. induction ps as [| p ps IH]; intros k H; simpl; [f_equal; lia |].
  unfold mineAt at 1. destruct (H p) as [c ->]; [left |].
  rewrite IH by (intros q Hq; apply H; by right).
  f_equal. destruct (isMine c); lia.
Qed.

(** What [#setCellValue] counts: the mined neighbours and the cell itself
    when it is mined. *)
Lemma minesAround_adjacentMines s p :
  wellFormed s → is_Some (cellAt (cells s) p) →
  minesAround s p = Some (adjacentMines s p + mineAt s p).
Proof.
  intros Hwf [cell Hc]. unfold minesAround. rewrite Hc. simpl.
  destruct (wellFormed_cellAt s p cell Hwf Hc) as ([Hrow Hcol] & -> & ->).
  rewrite countMines_sumZ.
  2:{ intros q Hq%neighbourhood_inBoard.
      destruct (wellFormed_inBoard s q Hwf Hq) as (c & -> & _). done. }
  f_equal. unfold neighbourhood. rewrite sumZ_bind.
  assert (∀ q, ¬ inBoard s q → mineAt s q = 0) as Hoff.
  { intros q Hq. unfold mineAt. by rewrite (wellFormed_off_board s q Hwf Hq). }
  rewrite (sumZ_ext _ (λ row, mineAt s (row, p.2 - 1) + mineAt s (row, p.2)
                              + mineAt s (row, p.2 + 1))).
  2:{ intros row. rewrite sumZ_fmap.
      apply (sumZ_clamped (λ col, mineAt s (row, col))); [done |].
      intros col Hcol'. apply Hoff. unfold inBoard. simpl. lia. }
  rewrite (sumZ_clamped (λ row, mineAt s (row, p.2 - 1) + mineAt s (row, p.2)
                                + mineAt s (row, p.2 + 1))); [| done |].
  2:{ intros row Hrow'. rewrite !Hoff; [lia | unfold inBoard; simpl; lia ..]. }
  unfold adjacentMines, offsets8, sumZ. simpl. destruct p as [r c]; simpl.
  replace (r + -1) with (r - 1) by lia. replace (c + -1) with (c - 1) by lia.
  rewrite !Z.add_0_r. lia.
Qed.

(** ** Boards that differ in marks only *)

Section sameMines.
Context (R : Cell → Cell → Prop) (s s' : Game).
Context (HR : ∀ c c', R c c' → position c' = position c ∧ isMine c' = isMine c).
Context (Hrows : numberOfRowes s' = numberOfRowes s).
Context (Hcols : numberOfCols s' = numberOfCols s).
Context (H : boardRel R (cells s) (cells s')).

Lemma countMines_boardRel ps k :
  countMines (cells s') ps k = countMines (cells s) ps k.
Proof.
  revert k. induction ps as [| p ps IH]; intros k; simpl; [done |].
  destruct (cellAt (cells s) p) as [c|] eqn:E.
  - destruct (boardRel_cellAt_l R _ _ _ _ H E) as (c' & -> & [_ ->]%HR). apply IH.
  - destruct (cellAt (cells s') p) as [c'|] eqn:E'; [| done].
    destruct (boardRel_cellAt_r R _ _ _ _ H E') as (c & ? & _). congruence.
Qed.

Lemma minesAround_boardRel p : minesAround s' p = minesAround s p.
Proof.
  unfold minesAround. destruct (cellAt (cells s) p) as [c|] eqn:E.
  - destruct (boardRel_cellAt_l R _ _ _ _ H E) as (c' & -> & [Hpos _]%HR). simpl.
    injection Hpos as -> ->. rewrite countMines_boardRel.
    unfold neighbourhood. by rewrite Hrows, Hcols.
  - destruct (cellAt (cells s') p) as [c'|] eqn:E'; [| done].
    destruct (boardRel_cellAt_r R _ _ _ _ H E') as (c & ? & _). congruence.
Qed.

Lemma mineCells_boardRel : mineCells s' = mineCells s.
Proof. eapply countCells_eq_rel; [| exact H]. by intros c c' [_ ?]%HR. Qed.

End sameMines.

Lemma later_minesAround s s' p : later cellGrows s s' → minesAround s' p = minesAround s p.
Proof.
  intros []. apply (minesAround_boardRel cellGrows); try done.
  by intros c c' (? & ? & _).
Qed.

Lemma cellAt_revealMines cs q :
  cellAt (revealMines cs) q = (λ c, if isMine c then revealCell c else c) <$> cellAt cs q.
Proof.
  unfold cellAt, revealMines. rewrite at_fmap.
  destruct (at_ cs q.1) as [row|]; simpl; [apply at_fmap | done].
Qed.

(** ** Reachable games *)

Lemma valuesRight_processCell s p n :
  minesAround s p = Some n → valuesRight s → valuesRight (processCell s p n).
Proof.
  intros Hn Hs q cell' Hq Hr Hm.
  rewrite (later_minesAround _ _ _ (processCell_grows s p n)).
  rewrite cellAt_processCell in Hq. case_decide as E.
  - subst q. destruct (cellAt (cells s) p) as [c|]; simplify_eq/=. done.
  - by apply Hs.
Qed.

Lemma valuesRight_endGame b s : valuesRight s → valuesRight (endGame b s).
Proof.
  destruct b; [done |]. intros Hs q cell' Hq Hr Hm.
  rewrite (later_minesAround _ _ _ (endGame_loss_grows s)).
  simpl in Hq. rewrite cellAt_revealMines in Hq.
  destruct (cellAt (cells s) q) as [c|] eqn:E; simplify_eq/=.
  destruct (isMine c) eqn:Em; [simpl in Hm; congruence |]. by apply Hs.
Qed.

Lemma valuesRight_steps s s' : rtc nstep s s' → valuesRight s → valuesRight s'.
Proof.
  induction 1 as [| s1 s2 s3 H12 _ IH]; [done |]. intros H1. apply IH.
  destruct H12; [by apply valuesRight_processCell | by apply (valuesRight_endGame true)].
Qed.

Lemma valuesRight_clicked s p s' : clicked s p s' → valuesRight s → valuesRight s'.
Proof.
  destruct 1 as [| | cell n s3 _ Hc _ Hn H3]; try done. intros Hs.
  assert (valuesRight s3) as H.
  { eapply valuesRight_steps; [exact H3 |]. apply valuesRight_processCell; [done |].
    destruct (isMine cell); [by apply (valuesRight_endGame false) | done]. }
  unfold winCheck. destruct (_ && _); [by apply (valuesRight_endGame true) | done].
Qed.

(** ** New games (C6) *)

Lemma list_pair_ind {A} (P : list A → Prop) :
  P [] → (∀ a, P [a]) → (∀ a b l, P l → P (a :: b :: l)) → ∀ l, P l.
Proof.
  intros H0 H1 H2.
  assert (∀ l, P l ∧ ∀ a, P (a :: l)) as H; [| intros l; apply H].
  induction l as [| b l [IH1 IH2]]; split; auto.
Qed.

Lemma cellMined_refl c : cellMined c c.
Proof. by repeat split. Qed.

Lemma cellMined_trans a b c : cellMined a b → cellMined b c → cellMined a c.
Proof. unfold cellMined. intros (?&?&?&?) (?&?&?&?). repeat split; congruence. Qed.

(** The loop of [#placeMinesInCells] ends only after it has put a mine into
    [minesToPlace] cells that had none. *)
Lemma placeMines_spec tape : ∀ s minesToPlace s',
  placeMines tape s minesToPlace = Done s' →
  0 ≤ minesToPlace
  ∧ s' = withCells (cells s') s
  ∧ boardRel cellMined (cells s) (cells s')
  ∧ Z.of_nat (mineCells s') = Z.of_nat (mineCells s) + minesToPlace.
Proof.
  induction tape as [| u | u1 u2 tape IH] using list_pair_ind; intros s k s' H; simpl in H.
  1,2: destruct (Z.eqb_spec k 0) as [-> | _]; [| done]; simplify_eq;
       split; [lia |]; split; [by destruct s' |];
       split; [apply boardRel_refl, cellMined_refl | lia].
  destruct (Z.eqb_spec k 0) as [-> | Hk].
  { simplify_eq. split; [lia |]. split; [by destruct s' |].
    split; [apply boardRel_refl, cellMined_refl | lia]. }
  destruct (cellAt (cells s) _) as [cell|] eqn:Hc; [| done].
  destruct (isMine cell) eqn:Hm; [by apply IH |].
  apply IH in H as (Hk' & Hs' & Hrel & Hcount). simpl in *.
  split; [lia |]. split; [done |]. split.
  - eapply boardRel_trans; [apply cellMined_trans | | exact Hrel].
    apply boardRel_updCell; [apply cellMined_refl | by repeat split].
  - pose proof (countCells_updCell isMine addMine _ (cells s) cell Hc) as E.
    rewrite Hm in E. simpl in E. unfold mineCells in *. simpl in *. lia.
Qed.

Lemma cellAt_generateCells rows cols p :
  cellAt (generateCells rows cols) p
  = if decide (0 ≤ p.1 < rows ∧ 0 ≤ p.2 < cols) then Some (newCell p.2 p.1) else None.
Proof.
  unfold cellAt, generateCells. rewrite at_fmap, at_seqZ.
  destruct (decide (0 ≤ p.1 < rows)); simpl.
  - rewrite at_fmap, at_seqZ. destruct (decide (0 ≤ p.2 < cols)); simpl.
    + by rewrite decide_True.
    + by rewrite decide_False by tauto.
  - by rewrite decide_False by tauto.
Qed.

Lemma positions_generateCells rows cols :
  (λ row : list Cell, position <$> row) <$> generateCells rows cols = positions rows cols.
Proof.
  unfold generateCells, positions. rewrite <- list_fmap_compose.
  apply list_fmap_ext. intros _ row _. simpl. rewrite <- list_fmap_compose.
  by apply list_fmap_ext.
Qed.

Lemma countCells_generateCells P rows cols :
  (∀ cx cy, P (newCell cx cy) = false) → countCells P (generateCells rows cols) = 0%nat.
Proof.
  intros HP. unfold countCells, generateCells.
  assert (∀ row (l : list Z),
    sum_list_with (λ c, if P c then 1 else 0)%nat ((λ col, newCell col row) <$> l) = 0%nat)
    as Hrow.
  { intros row l. induction l as [| col l IH]; csimpl; [done |]. by rewrite HP. }
  induction (seqZ 0 rows) as [| row l IH]; csimpl; [done |]. by rewrite IH, Hrow.
Qed.

(** No cell of a game that has just been started is revealed or flagged. *)
Lemma started_marks rows cols mines s p c :
  started rows cols mines s → cellAt (cells s) p = Some c →
  isReveal c = false ∧ isFlagged c = false.
Proof.
  intros [] Hc.
  destruct (boardRel_cellAt_r cellMined _ _ _ _ started_cells0 Hc)
    as (c0 & Hc0 & _ & _ & -> & ->).
  rewrite cellAt_generateCells in Hc0. case_decide; by simplify_eq.
Qed.

Lemma newGame_started tape s0 rows cols mines s :
  newGame tape s0 rows cols mines = Done s → started rows cols mines s.
Proof.
  unfold newGame, placeMinesInCells. intros H.
  destruct (placeMines _ _ _) as [s2| |] eqn:H2; try done. simplify_eq.
  apply placeMines_spec in H2 as (Hk & Hs2 & Hrel & Hcount). simpl in *.
  rewrite Hs2. simpl. split; simpl; try done.
  - eapply (wellFormed_boardRel cellMined
      (mkGame (isGameFinished s0) rows cols mines (generateCells rows cols)
         (cols * rows - mines) (revealedCells s0) mines (emotion s0))); try done.
    + by intros c c' (? & _).
    + apply positions_generateCells.
  - unfold mineCells in *. simpl in *.
    rewrite countCells_generateCells in Hcount by done. lia.
Qed.

Lemma getRandomInteger_drawFor n i :
  0 ≤ i < n → getRandomInteger (drawFor n i) 0 (n - 1) = i.
Proof.
  intros Hi. unfold getRandomInteger, drawFor, Qfloor, Qmult, inject_Z. simpl.
  rewrite Pos.mul_1_r, Z2Pos.id by lia.
  replace (n - 1 - 0 + 1) with n by lia. rewrite Z.div_mul by lia. lia.
Qed.

Lemma drawFor_unit n i : 0 ≤ i < n → (0 <= drawFor n i)%Q ∧ (drawFor n i < 1)%Q.
Proof.
  intros Hi. unfold drawFor, Qle, Qlt. simpl. rewrite Z2Pos.id by lia. lia.
Qed.

Lemma tapeFor_unit rows cols n : ∀ k,
  0 < cols → 0 ≤ k → k + Z.of_nat n ≤ rows * cols →
  Forall (λ u, (0 <= u)%Q ∧ (u < 1)%Q) (tapeFor rows cols k n).
Proof.
  induction n as [| n IH]; intros k Hcols Hk Hn; simpl; [constructor |].
  assert (0 ≤ k / cols < rows).
  { split; [apply Z.div_pos; lia |]. apply Z.div_lt_upper_bound; lia. }
  pose proof (Z.mod_pos_bound k cols Hcols).
  constructor; [by apply drawFor_unit |]. constructor; [by apply drawFor_unit |].
  apply IH; lia.
Qed.

Lemma placeMines_tapeFor n : ∀ k s,
  wellFormed s → 0 < numberOfCols s → 0 ≤ k →
  k + Z.of_nat n ≤ numberOfRowes s * numberOfCols s →
  (∀ j c, k ≤ j → cellAt (cells s) (j / numberOfCols s, j mod numberOfCols s) = Some c →
          isMine c = false) →
  ∃ s', placeMines (tapeFor (numberOfRowes s) (numberOfCols s) k n) s (Z.of_nat n) = Done s'.
Proof.
  induction n as [| n IH]; intros k s Hwf Hcols Hk Hn Hfree; [by eexists |].
  cbn [tapeFor placeMines]. destruct (Z.eqb_spec (Z.of_nat (S n)) 0); [lia |].
  assert (0 ≤ k / numberOfCols s < numberOfRowes s) as Hrow.
  { split; [apply Z.div_pos; lia |]. apply Z.div_lt_upper_bound; lia. }
  pose proof (Z.mod_pos_bound k (numberOfCols s) Hcols) as Hcol.
  rewrite !getRandomInteger_drawFor by done.
  destruct (wellFormed_inBoard s (k / numberOfCols s, k mod numberOfCols s) Hwf)
    as (cell & Hc & _); [done |].
  rewrite Hc, (Hfree k cell) by (done || lia).
  replace (Z.of_nat (S n) - 1) with (Z.of_nat n) by lia.
  set (s1 := withCells _ s).
  apply (IH (k + 1) s1); [| done | lia | simpl; lia |].
  - apply (wellFormed_boardRel cellMined s); try done; [by intros c c' (? & _) |].
    apply boardRel_updCell; [apply cellMined_refl | by repeat split].
  - intros j c Hj Hcj. simpl in Hcj. rewrite cellAt_updCell_ne in Hcj.
    + apply (Hfree j c); [lia | done].
    + intros E. injection E as E1 E2.
      pose proof (Z.div_mod k (numberOfCols s)). pose proof (Z.div_mod j (numberOfCols s)).
      nia.
Qed.

(** Every configuration with at least one row and one column and at most as
    many mines as cells can be started: there are numbers that
    [Math.random()] may return on which [#newGame] returns. *)
Lemma newGame_can_return s0 rows cols mines :
  0 < rows → 0 < cols → 0 ≤ mines ≤ rows * cols →
  ∃ tape s, Forall (λ u, (0 <= u)%Q ∧ (u < 1)%Q) tape
            ∧ newGame tape s0 rows cols mines = Done s.
Proof.
  intros Hrows Hcols Hmines. exists (tapeFor rows cols 0 (Z.to_nat mines)).
  set (s1 := mkGame (isGameFinished s0) rows cols mines (generateCells rows cols)
               (cols * rows - mines) (revealedCells s0) mines (emotion s0)).
  destruct (placeMines_tapeFor (Z.to_nat mines) 0 s1) as [s2 H2]; try done.
  - apply positions_generateCells.
  - simpl. lia.
  - intros j c _. simpl. rewrite cellAt_generateCells. case_decide; [| done].
    by intros [= <-].
  - exists (withRevealedCells 0 (withFinished false neutral s2)). split.
    + apply tapeFor_unit; lia.
    + unfold newGame, placeMinesInCells. fold s1. simpl numberOfMines.
      simpl in H2. rewrite Z2Nat.id in H2 by lia. by rewrite H2.
Qed.

(** With more mines than cells [#newGame] does not return, whatever
    [Math.random()] returns. *)
Lemma newGame_needs_room tape s0 rows cols mines s :
  0 ≤ rows → 0 ≤ cols → rows * cols < mines →
  newGame tape s0 rows cols mines ≠ Done s.
Proof.
  intros Hrows Hcols Hmines H%newGame_started. destruct H.
  pose proof (countCells_le_total isMine (cells s)) as Hle.
  rewrite (totalCells_wellFormed s started_wellFormed0) in Hle.
  unfold mineCells in *. subst rows cols. nia.
Qed.

(** C6: for every configuration with at least one row and one column and
    fewer mines than cells (and no negative number of mines), the placement
    can complete, on numbers that [Math.random()] may return; and whenever
    [#newGame] returns, exactly [mines] cells of the new board are mined: the
    loop of [#placeMinesInCells] counts a mine only when it has put it into
    a cell that had none, and draws again otherwise. *)
Theorem C6_exactly_the_configured_mines s0 rows cols mines :
  0 < rows → 0 < cols → 0 ≤ mines < rows * cols →
  (∃ tape s, Forall (λ u, (0 <= u)%Q ∧ (u < 1)%Q) tape
             ∧ newGame tape s0 rows cols mines = Done s)
  ∧ (∀ tape s, newGame tape s0 rows cols mines = Done s →
               Z.of_nat (mineCells s) = mines ∧ numberOfMines s = mines).
Proof.
  intros Hrows Hcols Hmines. split; [apply newGame_can_return; lia |].
  intros tape s H%newGame_started. split; [apply (started_mineCells _ _ _ _ H) |].
  apply (started_mines _ _ _ _ H).
Qed.

Lemma C6_exactly_the_configured_mines_witness :
  Z.of_nat (mineCells square3) = 1 ∧ numberOfMines square3 = 1.
Proof.
  refine (proj2 (C6_exactly_the_configured_mines initialGame 3 3 1 _ _ _)
            [(2 # 3)%Q; (2 # 3)%Q] square3 _); [lia | lia | lia | reflexivity].
Defined.

(** ** Flags (C9) *)

(** What [#handleCellContextMenu] does when it returns. *)
Lemma handleCellContextMenu_Done s rowIndex colIndex s' :
  handleCellContextMenu s rowIndex colIndex = Done s' →
  ∃ cell, cellAt (cells s) (rowIndex, colIndex) = Some cell
    ∧ if isReveal cell || isGameFinished s then s' = s
      else if isFlagged cell then s' = toggled s (rowIndex, colIndex) 1
      else if counter s =? 0 then s' = s
      else s' = toggled s (rowIndex, colIndex) (-1).
Proof.
  unfold handleCellContextMenu. intros H.
  destruct (cellAt _ _) as [cell|]; [| done]. exists cell. split; [done |].
  destruct (_ || _); [by simplify_eq |].
  destruct (isFlagged cell); [by simplify_eq |].
  destruct (counter s =? 0); simpl in H; simplify_eq; reflexivity.
Qed.

Lemma toggled_boardRel s p d : boardRel cellFlagged (cells s) (cells (toggled s p d)).
Proof.
  simpl. apply boardRel_updCell; [intros c; by repeat split |].
  intros c _. unfold toggleFlag, cellFlagged.
  destruct (isReveal c) eqn:E; simpl; [by rewrite E |].
  repeat split. done.
Qed.

Lemma flaggedCells_toggled s p d cell :
  cellAt (cells s) p = Some cell → isReveal cell = false →
  Z.of_nat (flaggedCells (toggled s p d))
  = Z.of_nat (flaggedCells s) + (if isFlagged cell then -1 else 1).
Proof.
  intros Hc Hr.
  pose proof (countCells_updCell isFlagged toggleFlag p (cells s) cell Hc) as E.
  assert (isFlagged (toggleFlag cell) = negb (isFlagged cell)) as Et
    by (unfold toggleFlag; by rewrite Hr).
  rewrite Et in E. unfold flaggedCells. simpl.
  destruct (isFlagged cell); simpl in E; lia.
Qed.

(** ** What holds in every reachable game *)

Lemma clicked_grows s p s' : clicked s p s' → later cellGrows s s'.
Proof.
  destruct 1 as [| | cell n s3 _ Hc _ Hn H3]; try (apply later_refl, cellGrows_refl).
  eapply (later_trans _ _ (if isMine cell then endGame false s else s));
    [apply cellGrows_trans | | ].
  { destruct (isMine cell); [apply endGame_loss_grows | apply later_refl, cellGrows_refl]. }
  eapply later_trans; [apply cellGrows_trans | apply processCell_grows |].
  eapply later_trans; [apply cellGrows_trans | by apply steps_grows |].
  apply steps_grows, winCheck_steps.
Qed.

Lemma started_sound rows cols mines s : started rows cols mines s → sound s.
Proof.
  intros Hs. pose proof Hs as []. split; try done.
  - intros p cell Hc Hr. destruct (started_marks _ _ _ _ p cell Hs Hc). congruence.
  - pose proof (Nat2Z.is_nonneg (mineCells s)). lia.
  - unfold flaggedCells.
    rewrite (countCells_eq_rel cellMined isFlagged _ _
               ltac:(by intros c c' (_ & _ & _ & ?)) started_cells0).
    rewrite countCells_generateCells by done. lia.
  - lia.
  - congruence.
Qed.

Lemma sound_clicked s p s' : clicked s p s' → sound s → sound s'.
Proof.
  intros Hclick []. pose proof (clicked_grows _ _ _ Hclick) as H.
  destruct H as [Hrows Hcols Hmines Hgoal Hcounter Hcells]. split.
  - eapply (wellFormed_boardRel cellGrows); try done. by intros c c' (? & _).
  - by eapply valuesRight_clicked.
  - lia.
  - unfold flaggedCells. rewrite (countCells_eq_rel cellGrows isFlagged _ _ ltac:(by intros c c' (_ & _ & ? & _)) Hcells).
    unfold flaggedCells in *. lia.
  - rewrite (mineCells_boardRel cellGrows s s'); [lia | | done].
    by intros c c' (? & ? & _).
  - lia.
Qed.

Lemma sound_toggled s p d cell :
  cellAt (cells s) p = Some cell → isReveal cell = false →
  d = (if isFlagged cell then 1 else -1) → (isFlagged cell = false → counter s ≠ 0) →
  sound s → sound (toggled s p d).
Proof.
  intros Hc Hr Hd Hpos []. pose proof (toggled_boardRel s p d) as Hrel. split.
  - eapply (wellFormed_boardRel cellFlagged s); try done. by intros c c' (? & _).
  - intros q cell' Hq Hr' Hm'.
    rewrite (minesAround_boardRel cellFlagged s); try done; [| by intros c c' (? & ? & _)].
    destruct (boardRel_cellAt_r cellFlagged _ _ _ _ Hrel Hq) as (c & Hc' & _ & Em & _ & Er & Hsame).
    rewrite Er in Hr'. rewrite (Hsame Hr'). apply sound_values0; [done .. | congruence].
  - simpl. destruct (isFlagged cell); [lia |]. specialize (Hpos eq_refl). lia.
  - rewrite (flaggedCells_toggled s p d cell Hc Hr). simpl.
    destruct (isFlagged cell); lia.
  - rewrite (mineCells_boardRel cellFlagged s); try done. by intros c c' (? & ? & _).
  - done.
Qed.

Lemma reachable_sound s : reachable s → sound s.
Proof.
  induction 1 as [tape s0 rows cols mines s H | fuel s r c s' _ IH H | s r c s' _ IH H].
  - eapply started_sound, newGame_started, H.
  - unfold handleCellClick in H. destruct (at_ _ _); [| done].
    eapply sound_clicked; [by eapply clickCell_clicked | done].
  - apply handleCellContextMenu_Done in H as (cell & Hc & H).
    destruct (isReveal cell) eqn:Hr; simpl in H; [by subst |].
    destruct (isGameFinished s); [by subst |].
    destruct (isFlagged cell) eqn:Hf.
    + subst s'. eapply sound_toggled; try done; [by rewrite Hf | congruence].
    + destruct (Z.eqb_spec (counter s) 0); subst s'; [done |].
      eapply sound_toggled; try done. by rewrite Hf.
Qed.

Lemma reachable_play fuel rs : ∀ s,
  reachable s → allDone fuel s rs = true → reachable (play fuel s rs).
Proof.
  induction rs as [| r rs IH]; intros s Hs H; simpl in *; [done |].
  destruct (handle fuel s r) as [s'| |] eqn:E; try done. simpl. apply IH; [| done].
  destruct r; simpl in E; [by eapply reachable_reveal | by eapply reachable_flag].
Qed.

(** C5, amended: in every reachable game, the count stored in a revealed cell
    that is not mined is the number of mined cells among its neighbours on
    the board, itself left out, and so lies between 0 and 8. *)
Theorem C5_revealed_safe_cell_shows_adjacent_mines s p cell :
  reachable s → cellAt (cells s) p = Some cell →
  isReveal cell = true → isMine cell = false →
  value cell = adjacentMines s p ∧ 0 ≤ value cell ≤ 8.
Proof.
  intros Hs%reachable_sound Hc Hr Hm.
  pose proof (sound_values _ Hs p cell Hc Hr Hm) as E.
  rewrite (minesAround_adjacentMines s p) in E by (by destruct Hs; eauto).
  unfold mineAt in E. rewrite Hc, Hm in E.
  assert (value cell = adjacentMines s p) as -> by (simplify_eq; lia).
  split; [done | apply adjacentMines_range].
Qed.

Lemma C5_revealed_safe_cell_shows_adjacent_mines_witness :
  let s := play 4 row4 [Reveal 0 2] in
  1 = adjacentMines s (0, 2) ∧ 0 ≤ 1 ≤ 8.
Proof.
  apply (C5_revealed_safe_cell_shows_adjacent_mines
           (play 4 row4 [Reveal 0 2]) (0, 2) (mkCell 2 0 1 false true false)).
  - apply reachable_play; [exact (reachable_new _ _ _ _ _ _ row4_new) | reflexivity].
  - reflexivity.
  - reflexivity.
  - reflexivity.
Defined.

(** C5 as it stands fails on revealed mines: the mine that was clicked has
    counted itself (2 for one mined neighbour), and the mines that the loss
    uncovers keep the count 0 of a fresh cell. *)
Lemma C5_revealed_mine_counterexample :
  let s := play 7 row7 [Reveal 0 5] in
  reachable s
  ∧ cellAt (cells s) (0, 5) = Some (mkCell 5 0 2 true true false)
  ∧ adjacentMines s (0, 5) = 1
  ∧ cellAt (cells s) (0, 6) = Some (mkCell 6 0 0 true true false)
  ∧ adjacentMines s (0, 6) = 1.
Proof.
  split; [| by vm_compute].
  apply reachable_play; [exact (reachable_new _ _ _ _ _ _ row7_new) | reflexivity].
Qed.

(** ** The counter of revealed cells (C1, C2) *)

(** Whenever a reveal request for a cell that is already revealed is
    processed (running game, no flag on the cell), the counter of revealed
    cells grows. *)
Lemma reveal_again_counts_again fuel s p cell s' :
  isGameFinished s = false → cellAt (cells s) p = Some cell →
  isReveal cell = true → isFlagged cell = false →
  clickCell fuel s p = Done s' → revealedCells s < revealedCells s'.
Proof.
  intros Hfin Hc Hr Hf H%clickCell_clicked.
  destruct H as [| | cell' n s3 _ Hc' _ Hn H3]; try congruence.
  assert (revealedCells (winCheck s3) = revealedCells s3) as ->
    by (unfold winCheck; by destruct (_ && _)).
  pose proof (steps_count _ _ H3) as E.
  pose proof (later_unrevealed _ _ (steps_grows _ _ H3)).
  assert (revealedCells (processCell (if isMine cell' then endGame false s else s) p n)
          = revealedCells s + 1) as E' by (by destruct (isMine cell')).
  lia.
Qed.

(** C2 fails on the code: the third cell of [row4] is revealed by a first
    request, and a second request for it returns with the counter of
    revealed cells incremented again. *)
Lemma C2_revealed_cell_is_counted_again :
  let s := play 4 row4 [Reveal 0 2] in
  reachable s
  ∧ isGameFinished s = false
  ∧ cellAt (cells s) (0, 2) = Some (mkCell 2 0 1 false true false)
  ∧ revealedCells s = 1
  ∧ ∃ s', handleCellClick 4 s 0 2 = Done s' ∧ revealedCells s' = 2.
Proof.
  split.
  { apply reachable_play; [exact (reachable_new _ _ _ _ _ _ row4_new) | reflexivity]. }
  repeat split. eexists. split; [vm_compute; reflexivity | done].
Qed.

(** C1 fails on the code: after the third cell of [row4] was clicked twice and
    the first cell once, all three free cells are revealed, the counter of
    revealed cells is 4, above the goal 3 = 1 * 4 - 1, and the game is
    neither won nor finished. *)
Lemma C1_counter_passes_the_goal :
  let s := play 4 row4 [Reveal 0 2; Reveal 0 2; Reveal 0 0] in
  reachable s
  ∧ revealedCells s = 4
  ∧ cellsToReveal s = 3
  ∧ numberOfRowes s * numberOfCols s - numberOfMines s = 3
  ∧ unrevealed s = 1%nat
  ∧ isGameFinished s = false ∧ emotion s = neutral.
Proof.
  split; [| by vm_compute].
  apply reachable_play; [exact (reachable_new _ _ _ _ _ _ row4_new) | reflexivity].
Qed.

(** The same slip ends a game as won while a free cell is still hidden: the
    third cell of [row4] clicked three times. *)
Example won_with_a_hidden_free_cell :
  let s := play 4 row4 [Reveal 0 2; Reveal 0 2; Reveal 0 2] in
  isGameFinished s = true ∧ emotion s = positive
  ∧ cellAt (cells s) (0, 0) = Some (mkCell 0 0 0 false false false).
Proof. by vm_compute. Qed.

(** ** The flag counter (C9) *)

Lemma started_flaggedCells rows cols mines s :
  started rows cols mines s → flaggedCells s = 0%nat.
Proof.
  intros []. unfold flaggedCells.
  rewrite (countCells_eq_rel cellMined isFlagged _ _
             ltac:(by intros c c' (_ & _ & _ & ?)) started_cells0).
  by rewrite countCells_generateCells.
Qed.

Lemma cellAt_toggled s p d q :
  cellAt (cells (toggled s p d)) q
  = if decide (p = q) then toggleFlag <$> cellAt (cells s) p else cellAt (cells s) q.
Proof. apply cellAt_updCell. Qed.

(** C9: a new game starts with the flag counter at the number of mines and
    no flag on the board; in every reachable game the counter is the number
    of mines less the number of flags, and not negative; a flag request that
    returns touches no other cell, does nothing on a revealed cell, takes
    one from the counter when it puts a flag (which it only does while the
    counter is not 0) and adds one when it removes a flag; and in a running
    game a request for a hidden cell removes its flag, or puts one unless
    the counter is 0. *)
Theorem C9_flag_counter :
  (∀ tape s0 rows cols mines s,
      newGame tape s0 rows cols mines = Done s →
      counter s = mines ∧ flaggedCells s = 0%nat)
  ∧ (∀ s, reachable s →
      0 ≤ counter s ∧ counter s = numberOfMines s - Z.of_nat (flaggedCells s))
  ∧ (∀ s rowIndex colIndex s',
      handleCellContextMenu s rowIndex colIndex = Done s' →
      (∀ q, q ≠ (rowIndex, colIndex) → cellAt (cells s') q = cellAt (cells s) q)
      ∧ (revealedAt s (rowIndex, colIndex) = true → s' = s)
      ∧ (flaggedAt s (rowIndex, colIndex) = false →
         flaggedAt s' (rowIndex, colIndex) = true →
         counter s ≠ 0 ∧ counter s' = counter s - 1)
      ∧ (flaggedAt s (rowIndex, colIndex) = true →
         flaggedAt s' (rowIndex, colIndex) = false →
         counter s' = counter s + 1)
      ∧ (flaggedAt s' (rowIndex, colIndex) = flaggedAt s (rowIndex, colIndex) → s' = s))
  ∧ (∀ s rowIndex colIndex cell,
      isGameFinished s = false →
      cellAt (cells s) (rowIndex, colIndex) = Some cell → isReveal cell = false →
      ∃ s', handleCellContextMenu s rowIndex colIndex = Done s'
            ∧ flaggedAt s' (rowIndex, colIndex)
              = if isFlagged cell then false else negb (counter s =? 0)).
Proof.
  split; [| split; [| split]].
  - intros tape s0 rows cols mines s H%newGame_started.
    split; [apply (started_counter _ _ _ _ H) | by eapply started_flaggedCells].
  - intros s [_ _ H1 H2 _ _]%reachable_sound. lia.
  - intros s r c s' (cell & Hc & H)%handleCellContextMenu_Done.
    unfold revealedAt, flaggedAt. rewrite Hc. simpl.
    destruct (isReveal cell) eqn:Hr; simpl in H.
    { subst s'. rewrite Hc. simpl. repeat split; congruence. }
    assert (isFlagged (toggleFlag cell) = negb (isFlagged cell)) as Et
      by (unfold toggleFlag; by rewrite Hr).
    destruct (isGameFinished s).
    { subst s'. rewrite Hc. simpl. repeat split; congruence. }
    destruct (isFlagged cell) eqn:Hf.
    + subst s'. rewrite cellAt_toggled, decide_True, Hc by done. simpl.
      rewrite Et. simpl. repeat split; try done.
      intros q Hq. by rewrite cellAt_updCell_ne.
    + destruct (Z.eqb_spec (counter s) 0) as [E | E]; subst s'.
      { rewrite Hc. simpl. repeat split; congruence. }
      rewrite cellAt_toggled, decide_True, Hc by done. simpl.
      rewrite Et. simpl. repeat split; try done; try lia.
      intros q Hq. by rewrite cellAt_updCell_ne.
  - intros s r c cell Hfin Hc Hr. unfold handleCellContextMenu, flaggedAt.
    rewrite Hc, Hr, Hfin. simpl.
    assert (isFlagged (toggleFlag cell) = negb (isFlagged cell)) as Et
      by (unfold toggleFlag; by rewrite Hr).
    destruct (isFlagged cell) eqn:Hf.
    + eexists. split; [done |]. simpl.
      rewrite cellAt_updCell_eq, Hc. simpl. by rewrite Et.
    + destruct (counter s =? 0); simpl; eexists; (split; [done |]); simpl.
      * by rewrite Hc.
      * rewrite cellAt_updCell_eq, Hc. simpl. by rewrite Et.
Qed.

Lemma C9_flag_counter_witness :
  (counter row4 = 1 ∧ flaggedCells row4 = 0%nat)
  ∧ (let s := play 4 row4 [Flag 0 3; Reveal 0 2] in
     0 ≤ counter s ∧ counter s = numberOfMines s - Z.of_nat (flaggedCells s))
  ∧ (let s := play 4 row4 [Flag 0 3] in
     ∃ s', handleCellContextMenu s 0 0 = Done s' ∧ flaggedAt s' (0, 0) = false)
  ∧ (let s := play 4 row4 [Flag 0 3] in
     ∃ s', handleCellContextMenu s 0 3 = Done s' ∧ flaggedAt s' (0, 3) = false).
Proof.
  destruct C9_flag_counter as (Hnew & Hreach & _ & Hflag).
  split; [exact (Hnew _ _ _ _ _ _ row4_new) |].
  split.
  { apply Hreach, reachable_play;
      [exact (reachable_new _ _ _ _ _ _ row4_new) | reflexivity]. }
  split.
  - apply (Hflag (play 4 row4 [Flag 0 3]) 0 0 (mkCell 0 0 0 false false false));
      reflexivity.
  - apply (Hflag (play 4 row4 [Flag 0 3]) 0 3 (mkCell 3 0 0 true false true));
      reflexivity.
Defined.

(** ** The cascade ends (C7) *)

Lemma boardRel_updCell_l (R : Cell → Cell → Prop) f p cs cs' :
  boardRel R cs cs' →
  (∀ c c', cellAt cs p = Some c → cellAt cs' p = Some c' → R (f c) c') →
  boardRel R (updCell f p cs) cs'.
Proof.
  intros H Hf. unfold updCell.
  destruct (Z.leb_spec 0 p.1); [| done]. destruct (Z.leb_spec 0 p.2); [| done]. simpl.
  apply Forall2_alter_l; [done |]. intros row row' Hrow Hrow' Hrows.
  apply Forall2_alter_l; [done |]. intros c c' Hc Hc' _. apply Hf.
  - apply cellAt_Some. exists row. split; apply at_Some; done.
  - apply cellAt_Some. exists row'. split; apply at_Some; done.
Qed.

(** A cell that has become revealed is one cell less to reveal. *)
Lemma unrevealed_lt s s' p c :
  later cellGrows s s' → cellAt (cells s) p = Some c → isReveal c = false →
  revealedAt s' p = true → (unrevealed s' < unrevealed s)%nat.
Proof.
  intros H Hc Hr Hr'.
  pose proof (countCells_updCell (λ c, negb (isReveal c)) revealCell p (cells s) c Hc) as E.
  cbv beta in E. rewrite Hr in E. change (isReveal (revealCell c)) with true in E.
  cbn [negb] in E.
  assert (unrevealed s' ≤ countCells (λ c, negb (isReveal c)) (updCell revealCell p (cells s)))%nat;
    [| unfold unrevealed in *; lia].
  apply (countCells_le_rel (λ c c', isReveal c = true → isReveal c' = true)).
  { intros c0 c0' Hc0. destruct (isReveal c0); [rewrite Hc0 |]; done. }
  apply boardRel_updCell_l.
  - eapply boardRel_impl; [| apply (later_cells _ _ _ H)]. by intros c0 c0' (_ & _ & _ & ?).
  - intros c0 c0' _ Hc0' _. unfold revealedAt in Hr'. by rewrite Hc0' in Hr'.
Qed.

Lemma revealedCells_winCheck s : revealedCells (winCheck s) = revealedCells s.
Proof. unfold winCheck. by destruct (_ && _). Qed.

Lemma cells_winCheck s : cells (winCheck s) = cells s.
Proof. unfold winCheck. by destruct (_ && _). Qed.

(** The number of cells that a call of [#clickCell] has processed is the
    growth of the counter of revealed cells; it is at most the number of
    cells that the call has revealed, and one more when the clicked cell was
    revealed before. *)
Lemma clicked_count s p cell s' :
  clicked s p s' → cellAt (cells s) p = Some cell →
  0 ≤ revealedCells s' - revealedCells s
    ≤ Z.of_nat (unrevealed s) - Z.of_nat (unrevealed s') + (if isReveal cell then 1 else 0).
Proof.
  intros Hclick Hc.
  destruct Hclick as [| | cell' n s3 _ Hc' _ Hn H3].
  1,2: destruct (isReveal cell); lia.
  rewrite Hc in Hc'. injection Hc' as <-.
  set (s1 := if isMine cell then endGame false s else s) in *.
  assert (later cellGrows s s1) as H1.
  { subst s1. destruct (isMine cell); [apply endGame_loss_grows |].
    apply later_refl, cellGrows_refl. }
  assert (revealedCells (processCell s1 p n) = revealedCells s + 1) as E1
    by (subst s1; by destruct (isMine cell)).
  assert (later cellGrows s (processCell s1 p n)) as H2
    by (eapply later_trans; [apply cellGrows_trans | exact H1 | apply processCell_grows]).
  assert (unrevealed (winCheck s3) = unrevealed s3) as E3
    by (unfold unrevealed; by rewrite cells_winCheck).
  rewrite revealedCells_winCheck, E3.
  pose proof (steps_count _ _ H3) as E.
  pose proof (later_unrevealed _ _ (steps_grows _ _ H3)) as Hle3.
  pose proof (later_unrevealed _ _ H2) as Hle2.
  destruct (isReveal cell) eqn:Hr; [lia |].
  assert (unrevealed (processCell s1 p n) < unrevealed s)%nat as Hlt; [| lia].
  eapply (unrevealed_lt s _ p cell); try done.
  destruct (later_cellAt_l _ _ H1 _ _ Hc) as (cell1 & Hc1 & _).
  unfold revealedAt. rewrite cellAt_processCell, decide_True, Hc1 by done. done.
Qed.

(** C7: a reveal request for a cell of the board returns as soon as the fuel
    (the depth allowed to the recursion) is the number of cells.  What it
    did is described by [clicked]: after the turn of the clicked cell, every
    step of the cascade takes a cell that is not yet revealed and reveals it
    ([nstep]).  The number of cells processed, which is the growth of the
    counter of revealed cells, is therefore at most the number of cells that
    have become revealed, plus one when the clicked cell was revealed
    before: no cell is processed twice; and it is at most rows * cols. *)
Theorem C7_cascade_terminates fuel s p cell :
  wellFormed s → cellAt (cells s) p = Some cell →
  (Z.to_nat (numberOfRowes s * numberOfCols s) ≤ fuel)%nat →
  ∃ s', clickCell fuel s p = Done s'
        ∧ clicked s p s'
        ∧ 0 ≤ revealedCells s' - revealedCells s
            ≤ Z.of_nat (unrevealed s) - Z.of_nat (unrevealed s')
              + (if isReveal cell then 1 else 0)
        ∧ revealedCells s' - revealedCells s ≤ numberOfRowes s * numberOfCols s.
Proof.
  intros Hwf Hc Hfuel.
  destruct (clickCell_terminates fuel s p Hwf) as [s' Hs']; [by eexists | done |].
  exists s'. split; [done |].
  pose proof (clickCell_clicked _ _ _ _ Hs') as Hclick. split; [done |].
  pose proof (clicked_count s p cell s' Hclick Hc) as Hcount. split; [done |].
  pose proof (wellFormed_cellAt s p cell Hwf Hc) as ([Hrow Hcol] & _).
  pose proof (totalCells_wellFormed s Hwf) as Htot.
  pose proof (countCells_le_total (λ c, negb (isReveal c)) (cells s)) as Hle.
  unfold unrevealed in *. destruct (isReveal cell) eqn:Hr; [| nia].
  pose proof (countCells_lt_total (λ c, negb (isReveal c)) (cells s) p cell Hc) as Hlt.
  simpl in Hlt. rewrite Hr in Hlt. specialize (Hlt eq_refl). nia.
Qed.

Lemma C7_cascade_terminates_witness :
  ∃ s', clickCell 9 square3 (0, 0) = Done s'
        ∧ clicked square3 (0, 0) s'
        ∧ 0 ≤ revealedCells s' - revealedCells square3
            ≤ Z.of_nat (unrevealed square3) - Z.of_nat (unrevealed s') + 0
        ∧ revealedCells s' - revealedCells square3
          ≤ numberOfRowes square3 * numberOfCols square3.
Proof.
  apply (C7_cascade_terminates 9 square3 (0, 0) (mkCell 0 0 0 false false false)).
  - reflexivity.
  - reflexivity.
  - vm_compute. lia.
Defined.

(** The recursion of that request is as deep as the board allows: the
    cascade of [row5] from its first cell needs fuel 4, one for each free
    cell. *)
Example cascade_depth :
  clickCell 3 row5 (0, 0) = OutOfFuel
  ∧ ∃ s', clickCell 4 row5 (0, 0) = Done s' ∧ revealedCells s' = 4.
Proof. split; [by vm_compute |]. eexists. split; [vm_compute; reflexivity | done]. Qed.

(** ** The cascade reaches every cell it should (C3) *)

Lemma later_revealedAt s s' d :
  later cellGrows s s' → revealedAt s d = true → revealedAt s' d = true.
Proof.
  unfold revealedAt. intros H Hd.
  destruct (cellAt (cells s) d) as [c|] eqn:Hc; [| done].
  destruct (later_cellAt_l _ _ H _ _ Hc) as (c' & -> & _ & _ & _ & Hr). by apply Hr.
Qed.

Lemma later_flaggedAt s s' d : later cellGrows s s' → flaggedAt s' d = flaggedAt s d.
Proof.
  unfold flaggedAt. intros H.
  destruct (cellAt (cells s) d) as [c|] eqn:Hc.
  - destruct (later_cellAt_l _ _ H _ _ Hc) as (c' & -> & _ & _ & E & _). done.
  - by rewrite (later_cellAt_None _ _ H _ Hc).
Qed.

Lemma later_covered s s' d : later cellGrows s s' → covered s d → covered s' d.
Proof.
  intros H [Hd | Hd]; [left; by eapply later_revealedAt | right].
  by rewrite (later_flaggedAt _ _ _ H).
Qed.

Lemma covered_cells s1 s2 d : cells s1 = cells s2 → covered s1 d → covered s2 d.
Proof. unfold covered, revealedAt, flaggedAt. by intros ->. Qed.

Lemma closed_cells s s1 s2 : cells s1 = cells s2 → closed s s1 → closed s s2.
Proof.
  intros E H q cq Hq Hr Hr' Hn d Hd. apply (covered_cells s1); [done |].
  eapply H; try done. unfold revealedAt in *. by rewrite E.
Qed.

Lemma closed_refl s : closed s s.
Proof. intros q cq Hq Hr Hr'. unfold revealedAt in Hr'. rewrite Hq in Hr'. simpl in Hr'. congruence. Qed.

Lemma closed_trans s s1 s' :
  later cellGrows s s1 → later cellGrows s1 s' →
  closed s s1 → closed s1 s' → closed s s'.
Proof.
  intros H1 H2 Hc1 Hc2 q cq Hq Hr Hr' Hn d Hd.
  destruct (later_cellAt_l _ _ H1 _ _ Hq) as (cq1 & Hq1 & Hpos & _).
  injection Hpos as Hy Hx.
  destruct (isReveal cq1) eqn:Hr1.
  - eapply later_covered; [exact H2 |]. eapply Hc1; try done.
    unfold revealedAt. by rewrite Hq1.
  - eapply Hc2; try done.
    + by rewrite (later_minesAround _ _ _ H1).
    + by rewrite (later_neighbourhood _ _ H1), Hx, Hy.
Qed.

Lemma revealAdjacent_closes click ps s s' :
  cascades click → closes click →
  (∀ p c, p ∈ ps → cellAt (cells s) p = Some c → isMine c = false) →
  revealAdjacent click ps s = Done s' →
  isGameFinished s' = true ∨ ((∀ d, d ∈ ps → covered s' d) ∧ closed s s').
Proof.
  intros Hsteps Hclick. revert s.
  induction ps as [| p ps IH]; intros s Hmines H; simpl in H.
  { simplify_eq. right. split; [by intros d ?%elem_of_nil | apply closed_refl]. }
  destruct (cellAt (cells s) p) as [adj|] eqn:Hadj; [| done].
  assert (isMine adj = false) as Hm by (eapply Hmines; [left | done]).
  destruct (isReveal adj) eqn:Hr.
  { pose proof (steps_grows _ _
      (revealAdjacent_steps click ps s s' Hsteps
         ltac:(intros q c Hq; apply Hmines; by right) H)) as Hlater.
    destruct (IH s) as [Hfin | [Hps Hcl]]; [| done | by left |].
    { intros q c Hq. apply Hmines. by right. }
    right. split; [| done]. intros d [-> | Hd]%elem_of_cons; [| by apply Hps].
    left. eapply later_revealedAt; [exact Hlater |]. unfold revealedAt. by rewrite Hadj. }
  destruct (click s p) as [s1| |] eqn:Hs1; try done.
  pose proof (Hsteps _ _ _ _ Hadj Hr Hm Hs1) as H1.
  assert (∀ q c, q ∈ ps → cellAt (cells s1) q = Some c → isMine c = false) as Hmines1.
  { intros q c Hq Hc.
    destruct (later_cellAt_r _ _ (steps_grows _ _ H1) _ _ Hc) as (c0 & Hc0 & _ & E & _).
    rewrite E. eapply Hmines; [by right | done]. }
  pose proof (revealAdjacent_steps click ps s1 s' Hsteps Hmines1 H) as H2.
  destruct (IH s1 Hmines1 H) as [Hfin | [Hps Hcl]]; [by left |].
  destruct (isGameFinished s') eqn:Hfin'; [by left | right].
  destruct (Hclick _ _ _ _ Hadj Hr Hm Hs1) as [Hfin1 | [Hp Hcl1]].
  { rewrite (steps_finished _ _ H2 Hfin1) in Hfin'. congruence. }
  split.
  - intros d [-> | Hd]%elem_of_cons; [| by apply Hps].
    eapply later_covered; [apply steps_grows, H2 | done].
  - eapply closed_trans; [apply steps_grows, H1 | apply steps_grows, H2 | done ..].
Qed.

Lemma clickCell_closes fuel : closes (clickCell fuel).
Proof.
  induction fuel as [| fuel IH]; intros s p cell s' Hc Hr Hm H; simpl in H; [done |].
  destruct (isGameFinished s) eqn:Hfin; [simplify_eq; by left |].
  rewrite Hc in H. destruct (isFlagged cell) eqn:Hf.
  { simplify_eq. right. split; [| apply closed_refl].
    right. unfold flaggedAt. by rewrite Hc. }
  rewrite Hm in H.
  destruct (setCellValue (clickCell fuel) s p) as [s3| |] eqn:H3; try done.
  assert (s' = winCheck s3) as -> by (unfold winCheck; destruct (_ && _); by simplify_eq).
  destruct (isGameFinished (winCheck s3)) eqn:Hfin'; [by left | right].
  unfold setCellValue in H3. rewrite Hc in H3.
  destruct (countMines _ _ 0) as [n|] eqn:Hn; [| done].
  assert (minesAround s p = Some n) as Hn' by (unfold minesAround; by rewrite Hc).
  pose proof (processCell_grows s p n) as H2.
  assert (revealedAt (processCell s p n) p = true) as Hp2.
  { unfold revealedAt. by rewrite cellAt_processCell, decide_True, Hc. }
  destruct (Z.eqb_spec n 0) as [-> | Hn0].
  2:{ simplify_eq. split.
      - left. unfold revealedAt in *. by rewrite cells_winCheck.
      - intros q cq Hq Hrq Hrq' Hnq. unfold revealedAt in Hrq'.
        rewrite cells_winCheck, cellAt_processCell in Hrq'. case_decide as Hpq.
        + subst q. congruence.
        + rewrite Hq in Hrq'. simpl in Hrq'. congruence. }
  assert (∀ q c, q ∈ neighbourhood s (x cell) (y cell) →
                 cellAt (cells (processCell s p 0)) q = Some c → isMine c = false) as Hmines.
  { intros q c Hq Hq'.
    destruct (later_cellAt_r _ _ H2 _ _ Hq') as (c0 & Hc0 & _ & E & _).
    rewrite E. by eapply countMines_none. }
  pose proof (revealAdjacent_steps _ _ _ _ (clickCell_cascades fuel) Hmines H3) as Hsteps.
  destruct (revealAdjacent_closes _ _ _ _ (clickCell_cascades fuel) IH Hmines H3)
    as [Hfin3 | [Hps Hcl]].
  { unfold winCheck in Hfin'. rewrite Hfin3, andb_false_r in Hfin'. congruence. }
  split.
  - apply (covered_cells s3); [by rewrite cells_winCheck |].
    left. eapply later_revealedAt; [apply steps_grows, Hsteps | done].
  - apply (closed_cells _ s3); [by rewrite cells_winCheck |].
    intros q cq Hq Hrq Hrq' Hnq d Hd.
    destruct (decide (q = p)) as [-> | Hqp].
    + simplify_eq. by apply Hps.
    + eapply (Hcl q cq);
        [by rewrite cellAt_processCell, decide_False | done | done
        | by rewrite (later_minesAround _ _ _ H2)
        | by rewrite (later_neighbourhood _ _ H2)].
Qed.

Lemma nstep_counted s s' : nstep s s' → counted s → counted s'.
Proof.
  destruct 1 as [s p cell n _ Hc _ Hr Hm _ | s]; [| done].
  unfold counted, hiddenFree. simpl.
  pose proof (countCells_updCell (λ c, negb (isMine c) && negb (isReveal c))
    (λ c, revealCell (setValue n c)) p (cells s) cell Hc) as E.
  cbv beta in E. rewrite Hm, Hr in E. simpl in E. rewrite Hm in E. simpl in E. lia.
Qed.

Lemma steps_counted s s' : rtc nstep s s' → counted s → counted s'.
Proof. induction 1; eauto using nstep_counted. Qed.

Lemma hiddenFree_none s d c :
  hiddenFree s = 0%nat → cellAt (cells s) d = Some c → isMine c = false →
  isReveal c = true.
Proof.
  intros H0 Hc Hm. destruct (isReveal c) eqn:Hr; [done |].
  pose proof (countCells_updCell (λ c, negb (isMine c) && negb (isReveal c))
    revealCell d (cells s) c Hc) as E.
  cbv beta in E. rewrite Hm, Hr in E. simpl in E. rewrite Hm in E. simpl in E.
  unfold hiddenFree in H0. lia.
Qed.

Lemma started_counted rows cols mines s :
  0 ≤ rows → 0 ≤ cols → started rows cols mines s → counted s.
Proof.
  intros Hrows0 Hcols0 Hs. pose proof Hs as [].
  unfold counted. rewrite started_revealed0, started_goal0.
  assert (hiddenFree s + mineCells s = totalCells (cells s))%nat as E.
  { unfold hiddenFree, mineCells, countCells, totalCells.
    assert (∀ i row, cells s !! i = Some row → Forall (λ c, isReveal c = false) row) as Hrows.
    { intros i row Hi. apply Forall_lookup. intros j c Hj.
      eapply (started_marks _ _ _ _ (Z.of_nat i, Z.of_nat j) c Hs).
      apply cellAt_Some. exists row. split; apply at_Some; simpl; rewrite Nat2Z.id;
        (split; [lia | done]). }
    clear -Hrows. induction (cells s) as [| row cs IH]; simpl; [done |].
    rewrite <- IH by (intros i; apply (Hrows (S i))).
    assert (sum_list_with (λ c, if negb (isMine c) && negb (isReveal c) then 1 else 0) row
            + sum_list_with (λ c, if isMine c then 1 else 0) row = length row)%nat; [| lia].
    specialize (Hrows 0%nat row eq_refl). clear -Hrows.
    induction Hrows as [| c row Hc _ IH]; simpl; [done |].
    rewrite Hc. destruct (isMine c); simpl; lia. }
  rewrite (totalCells_wellFormed s started_wellFormed0) in E. subst rows cols. nia.
Qed.

(** While the counter of revealed cells is right, it is within the goal. *)
Lemma counted_bound s : counted s → revealedCells s ≤ cellsToReveal s.
Proof. unfold counted. lia. Qed.

(** A reveal request for a hidden cell without mine keeps the counter right,
    and so does every flag request. *)
Lemma clickCell_counted fuel s p cell s' :
  cellAt (cells s) p = Some cell → isReveal cell = false → isMine cell = false →
  clickCell fuel s p = Done s' → counted s → counted s'.
Proof.
  intros Hc Hr Hm H. eapply steps_counted, clickCell_cascades; done.
Qed.

Lemma toggled_counted s p d : counted s → counted (toggled s p d).
Proof.
  unfold counted, hiddenFree. intros H.
  rewrite (countCells_eq_rel cellFlagged
             (λ c, negb (isMine c) && negb (isReveal c)) _ _
             ltac:(intros c c' (_ & Em & _ & Er & _); simpl; by rewrite Em, Er)
             (toggled_boardRel s p d)).
  done.
Qed.

Lemma hiddenChain_zeroChain s p d : hiddenChain s p d → zeroChain s p d.
Proof. induction 1; [constructor | by econstructor]. Qed.

Lemma adjacent_neighbourhood s q d :
  inBoard s d → adjacent q d → d ∈ neighbourhood s q.2 q.1.
Proof. unfold inBoard, adjacent. rewrite elem_of_neighbourhood. lia. Qed.

Lemma adjacentMines_zero s q d :
  adjacentMines s q = 0 → adjacent q d → d ≠ q → mineAt s d = 0.
Proof.
  unfold adjacentMines, offsets8, sumZ, adjacent. destruct q as [qr qc], d as [dr dc].
  simpl. intros H0 [Hr Hc] Hne.
  assert (∀ a b, (a, b) ≠ (0, 0) → -1 ≤ a ≤ 1 → -1 ≤ b ≤ 1 → mineAt s (qr + a, qc + b) = 0)
    as Hall.
  { intros a b Hab Ha Hb.
    repeat match goal with H : context [mineAt s ?q] |- _ =>
      let R := fresh in
      pose proof (mineAt_range s q) as R;
      let m := fresh "m" in let E := fresh "E" in
      remember (mineAt s q) as m eqn:E in H0, R; revert E
    end. intros.
    assert (a = -1 ∨ a = 0 ∨ a = 1) as [-> | [-> | ->]] by lia;
      assert (b = -1 ∨ b = 0 ∨ b = 1) as [-> | [-> | ->]] by lia;
      try done; subst; lia. }
  replace dr with (qr + (dr - qr)) by lia. replace dc with (qc + (dc - qc)) by lia.
  apply Hall; [| lia | lia]. intros E. injection E as ??. apply Hne. f_equal; lia.
Qed.

(** C3, amended: in a running game whose counter of revealed cells is right,
    a reveal request for a hidden cell without mine and with no mine around
    it returns, having revealed that cell and every cell without flag that
    is reachable from it through a chain of cells that have no mine around
    them and were hidden (neither revealed nor flagged) when the request was
    made; and it has left every flagged cell as it was. *)
Theorem C3_cascade_reveals_the_hidden_zero_region fuel s p :
  wellFormed s → isGameFinished s = false → counted s →
  hidden s p → freeZero s p →
  (Z.to_nat (numberOfRowes s * numberOfCols s) ≤ fuel)%nat →
  ∃ s', clickCell fuel s p = Done s'
        ∧ revealedAt s' p = true
        ∧ (∀ d, hiddenChain s p d → flaggedAt s d = false → revealedAt s' d = true)
        ∧ (∀ d, flaggedAt s d = true → cellAt (cells s') d = cellAt (cells s) d).
Proof.
  intros Hwf Hfin Hcount (cell & Hc & Hr & Hf) (cell' & Hc' & Hm & Hzero) Hfuel.
  rewrite Hc in Hc'. injection Hc' as <-.
  destruct (clickCell_terminates fuel s p Hwf) as [s' Hs']; [by eexists | done |].
  exists s'. split; [done |].
  pose proof (clickCell_cascades fuel s p cell s' Hc Hr Hm Hs') as Hsteps.
  pose proof (steps_keeps _ _ Hsteps) as Hkeeps.
  pose proof (steps_grows _ _ Hsteps) as Hgrows.
  assert (∀ d, flaggedAt s d = true → cellAt (cells s') d = cellAt (cells s) d) as Hflags.
  { intros d Hd. unfold flaggedAt in Hd.
    destruct (cellAt (cells s) d) as [c|] eqn:Hcd; [| done]. simpl in Hd.
    destruct (boardRel_cellAt_l cellKeeps _ _ _ _ (later_cells _ _ _ Hkeeps) Hcd)
      as (c' & -> & _ & _ & Hsame). by rewrite (Hsame Hd). }
  (* every cell of a chain is on the board and without mine *)
  assert (∀ d, hiddenChain s p d → ∃ c, cellAt (cells s) d = Some c ∧ isMine c = false)
    as Hfree.
  { intros d Hd. destruct Hd as [| q d _ (cq & Hq & Hmq & Hzq) _ Hadj Hin]; [by eexists |].
    destruct (wellFormed_inBoard s d Hwf Hin) as (c & Hcd & _). exists c. split; [done |].
    destruct (decide (d = q)) as [-> | Hne]; [congruence |].
    pose proof (adjacentMines_zero s q d Hzq Hadj Hne) as E.
    unfold mineAt in E. rewrite Hcd in E. by destruct (isMine c). }
  destruct (isGameFinished s') eqn:Hfin'.
  - (* the request has won the game: no free cell is hidden any more *)
    destruct (steps_win _ _ Hsteps Hfin Hfin') as [_ Hgoal].
    pose proof (steps_counted _ _ Hsteps Hcount) as Hcount'. unfold counted in Hcount'.
    assert (hiddenFree s' = 0%nat) as H0 by lia.
    assert (∀ d c, cellAt (cells s) d = Some c → isMine c = false → revealedAt s' d = true)
      as Hall.
    { intros d c Hcd Hmd.
      destruct (later_cellAt_l _ _ Hgrows _ _ Hcd) as (c' & Hcd' & _ & Em & _).
      unfold revealedAt. rewrite Hcd'. simpl.
      eapply hiddenFree_none; [exact H0 | exact Hcd' | congruence]. }
    split; [by eapply Hall |]. split; [| done].
    intros d (c & Hcd & Hmd)%Hfree _. by eapply Hall.
  - (* the game goes on: the board is closed *)
    destruct (clickCell_closes fuel s p cell s' Hc Hr Hm Hs') as [? | [Hp Hclosed]];
      [congruence |].
    assert (∀ d, covered s' d → flaggedAt s d = false → revealedAt s' d = true) as Hcov.
    { intros d [? | Hd] Hd'; [done |]. rewrite (later_flaggedAt _ _ _ Hgrows) in Hd. congruence. }
    split; [apply Hcov; [done |]; unfold flaggedAt; by rewrite Hc |]. split; [| done].
    induction 1 as [| q d Hq IH (cq & Hcq & Hmq & Hzq) (cq' & Hcq' & Hrq & Hfq) Hadj Hin];
      intros Hd.
    { apply Hcov; [done |]. unfold flaggedAt. by rewrite Hc. }
    simplify_eq. apply Hcov; [| done].
    destruct (wellFormed_cellAt s q cq Hwf Hcq) as (_ & Hy & Hx).
    eapply (Hclosed q cq); try done.
    + apply IH. unfold flaggedAt. by rewrite Hcq.
    + rewrite (minesAround_adjacentMines s q Hwf) by (by eexists).
      unfold mineAt. rewrite Hcq, Hmq, Hzq. done.
    + rewrite Hx, Hy. by apply adjacent_neighbourhood.
Qed.

Lemma C3_cascade_reveals_the_hidden_zero_region_witness :
  ∃ s', clickCell 9 square3 (0, 0) = Done s'
        ∧ revealedAt s' (0, 0) = true
        ∧ (∀ d, hiddenChain square3 (0, 0) d → flaggedAt square3 d = false →
                revealedAt s' d = true)
        ∧ (∀ d, flaggedAt square3 d = true →
                cellAt (cells s') d = cellAt (cells square3) d).
Proof.
  apply (C3_cascade_reveals_the_hidden_zero_region 9 square3 (0, 0)).
  - reflexivity.
  - reflexivity.
  - reflexivity.
  - exists (mkCell 0 0 0 false false false). repeat split.
  - exists (mkCell 0 0 0 false false false). repeat split.
  - vm_compute. lia.
Defined.

(** C3 as it stands fails: in [row7_opened] no cell is flagged and
    the counter of revealed cells is right; the first cell is hidden, has no
    mine and none around it, and the third cell is reachable from it through
    the second, which has no mine around it either.  The reveal request for
    the first cell leaves the third hidden, because the second was revealed
    before and the cascade does not go through revealed cells. *)
Lemma C3_revealed_cell_counterexample :
  reachable row7_opened
  ∧ isGameFinished row7_opened = false
  ∧ flaggedCells row7_opened = 0%nat
  ∧ counted row7_opened
  ∧ hidden row7_opened (0, 0) ∧ freeZero row7_opened (0, 0)
  ∧ zeroChain row7_opened (0, 0) (0, 2)
  ∧ ∃ s', clickCell 7 row7_opened (0, 0) = Done s'
          ∧ isGameFinished s' = false
          ∧ revealedAt s' (0, 0) = true
          ∧ revealedAt s' (0, 2) = false.
Proof.
  assert (freeZero row7_opened (0, 0)) as H0
    by (exists (mkCell 0 0 0 false false false); repeat split).
  assert (freeZero row7_opened (0, 1)) as H1
    by (exists (mkCell 1 0 0 false true false); repeat split).
  split.
  { apply (reachable_play 7 [Flag 0 0; Flag 0 2; Reveal 0 1; Flag 0 0; Flag 0 2] row7);
      [exact (reachable_new _ _ _ _ _ _ row7_new) | reflexivity]. }
  split; [reflexivity |]. split; [reflexivity |]. split; [reflexivity |].
  split; [exists (mkCell 0 0 0 false false false); repeat split |].
  split; [exact H0 |]. split.
  - apply (zeroChain_step _ _ (0, 1)); [| exact H1 | | ].
    + apply (zeroChain_step _ _ (0, 0)); [constructor | exact H0 | |].
      * unfold adjacent; simpl; lia.
      * unfold inBoard; simpl; lia.
    + unfold adjacent; simpl; lia.
    + unfold inBoard; simpl; lia.
  - eexists. split; [vm_compute; reflexivity |]. repeat split.
Qed.

(** A flag in the chain stops the cascade as well: in [row5] with a flag on
    the second cell, the request for the third cell leaves the first
    hidden. *)
Example flag_stops_the_cascade :
  let s := play 5 row5 [Flag 0 1] in
  zeroChain s (0, 2) (0, 0)
  ∧ flaggedAt s (0, 0) = false
  ∧ ∃ s', clickCell 5 s (0, 2) = Done s'
          ∧ revealedAt s' (0, 2) = true
          ∧ revealedAt s' (0, 1) = false
          ∧ revealedAt s' (0, 0) = false.
Proof.
  split; [| split; [reflexivity |]].
  - apply (zeroChain_step _ _ (0, 1)).
    + apply (zeroChain_step _ _ (0, 2)); [constructor | | |].
      * exists (mkCell 2 0 0 false false false). repeat split.
      * unfold adjacent; simpl; lia.
      * unfold inBoard; simpl; lia.
    + exists (mkCell 1 0 0 false false true). repeat split.
    + unfold adjacent; simpl; lia.
    + unfold inBoard; simpl; lia.
  - eexists. split; [vm_compute; reflexivity |]. repeat split.
Qed.

(** The slip of C2 can end a cascade before the region is revealed: in
    [row6], after the fifth cell was clicked twice, the request for the third
    cell wins the game in the middle of the cascade and the fourth cell
    stays hidden. *)
Example counter_slip_cuts_the_cascade :
  let s := play 6 row6 [Reveal 0 4; Reveal 0 4] in
  isGameFinished s = false
  ∧ ∃ s', clickCell 6 s (0, 2) = Done s'
          ∧ emotion s' = positive
          ∧ revealedAt s' (0, 3) = false.
Proof.
  split; [reflexivity |]. eexists. split; [vm_compute; reflexivity |]. repeat split.
Qed.

(** ** Sessions without a second click on a revealed cell (C1) *)

Lemma steps_emotion s s' :
  rtc nstep s s' → isGameFinished s' = false → emotion s' = emotion s.
Proof.
  induction 1 as [| s1 s2 s3 H12 H23 IH]; [done |]. intros Hfin.
  rewrite IH by done. destruct H12; [done |].
  apply steps_finished in H23; [| done]. subst s3. done.
Qed.

Lemma goalKept_clicked s p s' :
  clicked s p s' → revealedAt s p = false → goalKept s → goalKept s'.
Proof.
  destruct 1 as [| | cell n s3 Hfin Hc Hf Hn H3]; try done. intros Hr Hs.
  unfold revealedAt in Hr. rewrite Hc in Hr. simpl in Hr.
  unfold goalKept in Hs. destruct (emotion s) eqn:He; try (destruct Hs; congruence).
  destruct Hs as (_ & Hcount & Hlt).
  destruct (isMine cell) eqn:Hm.
  - apply steps_finished in H3; [| done]. subst s3.
    unfold winCheck, goalKept. simpl. rewrite andb_false_r. simpl. split; [done | lia].
  - assert (rtc nstep s s3) as Hsteps.
    { eapply rtc_l; [| exact H3]. by eapply (nstep_reveal s p cell n). }
    assert (rtc nstep s (winCheck s3)) as Hsteps'
      by (etrans; [exact Hsteps | apply winCheck_steps]).
    pose proof (steps_counted _ _ Hsteps' Hcount) as Hcount'.
    pose proof (counted_bound _ Hcount') as Hle.
    unfold goalKept. destruct (isGameFinished (winCheck s3)) eqn:Hfin'.
    + destruct (steps_win _ _ Hsteps' Hfin Hfin') as [-> Hgoal]. done.
    + rewrite (steps_emotion _ _ Hsteps' Hfin'), He. split; [done |]. split; [done |].
      assert (revealedCells (winCheck s3) ≠ cellsToReveal (winCheck s3)); [| lia].
      unfold winCheck in *.
      destruct (Z.eqb_spec (revealedCells s3) (cellsToReveal s3)) as [E | E]; simpl in *.
      * destruct (isGameFinished s3) eqn:Hfin3; simpl in *; congruence.
      * done.
Qed.

Lemma goalKept_toggled s p d : goalKept s → goalKept (toggled s p d).
Proof.
  unfold goalKept. simpl. pose proof (toggled_counted s p d).
  destruct (emotion s); tauto.
Qed.

(** In a session that starts from a configuration with fewer mines than
    cells and in which no reveal request is made for a revealed cell, the
    counter of revealed cells stays within the goal; the game runs while the
    counter is below the goal, it is won exactly when the counter has
    reached the goal without a mine having been clicked, and then no free
    cell is hidden. *)
Lemma careful_goalKept s : careful s → goalKept s.
Proof.
  induction 1 as [tape s0 rows cols mines s Hrows Hcols Hmines H
                 | fuel s r c s' _ IH Hr H | s r c s' _ IH H].
  - apply newGame_started in H. pose proof (started_counted rows cols mines s ltac:(lia) ltac:(lia) H).
    destruct H. unfold goalKept. rewrite started_emotion0. split; [done |]. split; [done |]. nia.
  - unfold handleCellClick in H. destruct (at_ _ _); [| done].
    eapply goalKept_clicked; [by eapply clickCell_clicked | done | done].
  - apply handleCellContextMenu_Done in H as (cell & Hc & H).
    destruct (isReveal cell || isGameFinished s); [by subst |].
    destruct (isFlagged cell); [subst; by apply goalKept_toggled |].
    destruct (counter s =? 0); subst; [done | by apply goalKept_toggled].
Qed.

(** * Further properties of the code *)

(** ** The loops of [#generateCells] and [#setCellValue] *)

(** X1: the board that [#generateCells] builds holds a cell exactly at the
    positions with a row in [0, rows) and a column in [0, cols), and the
    cell at (row, col) is [new Cell(col, row)]; it has [rows] rows, and
    rows times cols cells (none when one of the two is not positive). *)
Theorem X1_generateCells_board rows cols :
  (∀ p, cellAt (generateCells rows cols) p
        = if decide (0 ≤ p.1 < rows ∧ 0 ≤ p.2 < cols)
          then Some (newCell p.2 p.1) else None)
  ∧ length (generateCells rows cols) = Z.to_nat rows
  ∧ totalCells (generateCells rows cols) = (Z.to_nat rows * Z.to_nat cols)%nat.
Proof.
  split; [apply cellAt_generateCells |]. split.
  - unfold generateCells. by rewrite length_fmap, length_seqZ.
  - apply (totalCells_wellFormed
             (mkGame false rows cols 0 (generateCells rows cols) 0 0 0 neutral)).
    apply positions_generateCells.
Qed.

Lemma NoDup_neighbourhood s cx cy : NoDup (neighbourhood s cx cy).
Proof.
  unfold neighbourhood, forRange. apply NoDup_bind; [| | apply NoDup_seqZ].
  - intros r1 r2 q _ _ (c1 & -> & _)%list_elem_of_fmap (c2 & E & _)%list_elem_of_fmap.
    by injection E.
  - intros r _. apply NoDup_fmap_2; [| apply NoDup_seqZ]. by intros c1 c2 [= ->].
Qed.

Lemma length_neighbourhood s cx cy :
  length (neighbourhood s cx cy)
  = (Z.to_nat (Z.min (cy + 1) (numberOfRowes s - 1) - Z.max (cy - 1) 0 + 1)
     * Z.to_nat (Z.min (cx + 1) (numberOfCols s - 1) - Z.max (cx - 1) 0 + 1))%nat.
Proof.
  unfold neighbourhood, forRange.
  rewrite <- (length_seqZ (Z.max (cy - 1) 0)
                (Z.min (cy + 1) (numberOfRowes s - 1) - Z.max (cy - 1) 0 + 1)).
  induction (seqZ (Z.max (cy - 1) 0) _) as [| r l IH]; csimpl; [done |].
  rewrite length_app, length_fmap, length_seqZ, IH. done.
Qed.

(** X2: the two nested loops of [#setCellValue] around a cell of the board
    visit every position of the board that is at most one row and one column
    away, each exactly once, the cell's own position included: between 1 and
    9 positions, and never one off the board. *)
Theorem X2_setCellValue_scan s p :
  inBoard s p →
  (∀ q, q ∈ neighbourhood s p.2 p.1 ↔ inBoard s q ∧ adjacent p q)
  ∧ NoDup (neighbourhood s p.2 p.1)
  ∧ p ∈ neighbourhood s p.2 p.1
  ∧ (1 ≤ length (neighbourhood s p.2 p.1) ≤ 9)%nat.
Proof.
  intros [Hr Hc]. split; [| split; [apply NoDup_neighbourhood | split]].
  - intros q. rewrite elem_of_neighbourhood. unfold inBoard, adjacent. lia.
  - apply elem_of_neighbourhood. lia.
  - rewrite length_neighbourhood.
    set (a := Z.to_nat _). set (b := Z.to_nat _).
    assert (1 ≤ a ≤ 3)%nat by (subst a; lia).
    assert (1 ≤ b ≤ 3)%nat by (subst b; lia). nia.
Qed.

Lemma X2_setCellValue_scan_witness :
  (∀ q, q ∈ neighbourhood square3 0 0 ↔ inBoard square3 q ∧ adjacent (0, 0) q)
  ∧ NoDup (neighbourhood square3 0 0)
  ∧ (0, 0) ∈ neighbourhood square3 0 0
  ∧ (1 ≤ length (neighbourhood square3 0 0) ≤ 9)%nat.
Proof.
  apply (X2_setCellValue_scan square3 (0, 0)). unfold inBoard. simpl. lia.
Defined.

(** ** [#getRandomInteger] *)

Lemma getRandomInteger_range u min max :
  (0 <= u)%Q → (u < 1)%Q → min ≤ max → min ≤ getRandomInteger u min max ≤ max.
Proof.
  destruct u as [a b]. unfold Qle, Qlt, getRandomInteger, Qfloor, Qmult, inject_Z. simpl.
  intros Ha Hb Hm. rewrite Pos.mul_1_r.
  assert (0 ≤ a * (max - min + 1) / Z.pos b < max - min + 1); [| lia].
  split.
  - apply Z.div_pos; [nia | lia].
  - apply Z.div_lt_upper_bound; [lia | nia].
Qed.



(** ** [#placeMinesInCells] and [#newGame] *)

Lemma mineAdded_trans a b c : mineAdded a b → mineAdded b c → mineAdded a c.
Proof.
  intros [-> | [Ha ->]] [-> | [Hb ->]]; [by left | by right | by right |].
  simpl in Hb. done.
Qed.

Lemma placeMines_adds tape : ∀ s minesToPlace s',
  placeMines tape s minesToPlace = Done s' →
  boardRel mineAdded (cells s) (cells s').
Proof.
  induction tape as [| u | u1 u2 tape IH] using list_pair_ind; intros s k s' H; simpl in H.
  1,2: destruct (k =? 0); [| done]; simplify_eq; apply boardRel_refl; by left.
  destruct (k =? 0); [simplify_eq; apply boardRel_refl; by left |].
  destruct (cellAt (cells s) _) as [cell|] eqn:Hc; [| done].
  destruct (isMine cell) eqn:Hm; [by eapply IH |].
  apply (IH _ _ _) in H. simpl in H.
  eapply boardRel_trans; [apply mineAdded_trans | | exact H].
  apply boardRel_updCell; [by left |]. intros c ?. simplify_eq. by right.
Qed.

Lemma placeMines_no_TypeError tape : ∀ s minesToPlace t,
  wellFormed s → 0 < numberOfRowes s → 0 < numberOfCols s → unitTape tape →
  placeMines tape s minesToPlace ≠ TypeError t.
Proof.
  induction tape as [| u | u1 u2 tape IH] using list_pair_ind;
    intros s k t Hwf Hrows Hcols Htape; simpl.
  1,2: by destruct (k =? 0).
  destruct (k =? 0); [done |].
  apply Forall_cons in Htape as [[??] Htape]. apply Forall_cons in Htape as [[??] Htape].
  pose proof (getRandomInteger_range u1 0 (numberOfRowes s - 1)
                ltac:(done) ltac:(done) ltac:(lia)) as Hr.
  pose proof (getRandomInteger_range u2 0 (numberOfCols s - 1)
                ltac:(done) ltac:(done) ltac:(lia)) as Hc.
  destruct (wellFormed_inBoard s
    (getRandomInteger u1 0 (numberOfRowes s - 1), getRandomInteger u2 0 (numberOfCols s - 1))
    Hwf) as (cell & -> & _); [unfold inBoard; simpl; lia |].
  destruct (isMine cell); [by apply IH |]. apply IH; try done.
  apply (wellFormed_boardRel cellMined s); try done; [by intros c c' (? & _) |].
  apply boardRel_updCell; [apply cellMined_refl | by repeat split].
Qed.

(** X4: on a well-formed board with at least one row and one column, and on
    numbers that [Math.random()] may return, [#placeMinesInCells] never
    reads a cell that is not there (no [TypeError]).  Whenever it returns it
    has changed nothing but cells: each cell is as before, or had no mine
    and has got one; and the number of mined cells has grown by
    [#numberOfMines], also on a board that had mines already. *)
Theorem X4_placeMinesInCells_only_adds_mines tape s :
  wellFormed s → 0 < numberOfRowes s → 0 < numberOfCols s → unitTape tape →
  (∀ t, placeMinesInCells tape s ≠ TypeError t)
  ∧ (∀ s', placeMinesInCells tape s = Done s' →
       s' = withCells (cells s') s
       ∧ (∀ p c', cellAt (cells s') p = Some c' →
                  ∃ c, cellAt (cells s) p = Some c ∧ mineAdded c c')
       ∧ Z.of_nat (mineCells s') = Z.of_nat (mineCells s) + numberOfMines s).
Proof.
  intros Hwf Hrows Hcols Htape. split.
  - intros t. by apply placeMines_no_TypeError.
  - intros s' H. pose proof (placeMines_adds _ _ _ _ H) as Hadds.
    apply placeMines_spec in H as (_ & Hs' & _ & Hcount).
    split; [done |]. split; [| done].
    intros p c' Hc'. by apply (boardRel_cellAt_r mineAdded _ (cells s')).
Qed.

Lemma X4_placeMinesInCells_only_adds_mines_witness :
  (∀ t, placeMinesInCells [0%Q; (1 # 2)%Q; 0%Q; 0%Q] square3 ≠ TypeError t)
  ∧ (∀ s', placeMinesInCells [0%Q; (1 # 2)%Q; 0%Q; 0%Q] square3 = Done s' →
       s' = withCells (cells s') square3
       ∧ (∀ p c', cellAt (cells s') p = Some c' →
                  ∃ c, cellAt (cells square3) p = Some c ∧ mineAdded c c')
       ∧ Z.of_nat (mineCells s') = Z.of_nat (mineCells square3) + numberOfMines square3).
Proof.
  apply (X4_placeMinesInCells_only_adds_mines [0%Q; (1 # 2)%Q; 0%Q; 0%Q] square3).
  - reflexivity.
  - reflexivity.
  - reflexivity.
  - repeat constructor; by vm_compute.
Defined.

Lemma cellAt_no_cells rows cols p :
  rows ≤ 0 ∨ cols ≤ 0 → cellAt (generateCells rows cols) p = None.
Proof. intros H. rewrite cellAt_generateCells. apply decide_False. lia. Qed.

(** X5: with no mine to place [#newGame] returns without a call of
    [Math.random()], whatever the size; the game is running, nothing is
    revealed and the goal is cols * rows.  With no row or no column and
    mines to place, the first try of the placement reads a cell that is not
    there: [#newGame] throws the [TypeError], the board generated and
    [#isGameFinished], [#revealedCells] and the face left as the old game
    had them. *)
Theorem X5_newGame_edge_cases tape s0 rows cols :
  newGame tape s0 rows cols 0
  = Done (mkGame false rows cols 0 (generateCells rows cols) (cols * rows - 0) 0 0 neutral)
  ∧ (∀ mines u1 u2, rows ≤ 0 ∨ cols ≤ 0 → mines ≠ 0 →
       newGame (u1 :: u2 :: tape) s0 rows cols mines
       = TypeError (mkGame (isGameFinished s0) rows cols mines (generateCells rows cols)
                      (cols * rows - mines) (revealedCells s0) mines (emotion s0))).
Proof.
  split.
  - unfold newGame, placeMinesInCells. by destruct tape as [| ? [| ??]].
  - intros mines u1 u2 Hdim Hmines. unfold newGame, placeMinesInCells. simpl.
    destruct (Z.eqb_spec mines 0); [done |]. by rewrite cellAt_no_cells.
Qed.

Lemma X5_newGame_edge_cases_witness :
  newGame [] row4_lost 0 5 0
  = Done (mkGame false 0 5 0 (generateCells 0 5) (5 * 0 - 0) 0 0 neutral)
  ∧ (∀ mines u1 u2, 0 ≤ 0 ∨ 5 ≤ 0 → mines ≠ 0 →
       newGame (u1 :: u2 :: []) row4_lost 0 5 mines
       = TypeError (mkGame (isGameFinished row4_lost) 0 5 mines (generateCells 0 5)
                      (5 * 0 - mines) (revealedCells row4_lost) mines (emotion row4_lost))).
Proof. apply (X5_newGame_edge_cases [] row4_lost 0 5). Defined.

Lemma placeMines_reframe tape : ∀ s t minesToPlace,
  cells t = cells s → numberOfRowes t = numberOfRowes s →
  numberOfCols t = numberOfCols s →
  placeMines tape t minesToPlace = reframe t (placeMines tape s minesToPlace).
Proof.
  induction tape as [| u | u1 u2 tape IH] using list_pair_ind;
    intros s t k Hcells Hrows Hcols; simpl.
  1,2: destruct (k =? 0); [| done]; simpl; rewrite <- Hcells; by destruct t.
  destruct (k =? 0); [simpl; rewrite <- Hcells; by destruct t |].
  rewrite Hcells, Hrows, Hcols.
  destruct (cellAt (cells s) _) as [cell|]; [| simpl; rewrite <- Hcells; by destruct t].
  destruct (isMine cell); [by apply IH |].
  rewrite (IH (withCells (updCell addMine _ (cells s)) s)
              (withCells (updCell addMine _ (cells s)) t)) by done.
  by destruct (placeMines tape _ _).
Qed.

Lemma newGame_Done tape s0 rows cols mines s :
  newGame tape s0 rows cols mines = Done s →
  s = mkGame false rows cols mines (cells s) (cols * rows - mines) 0 mines neutral.
Proof.
  unfold newGame, placeMinesInCells. simpl. intros H.
  destruct (placeMines tape _ mines) as [s2| |] eqn:H2; try done.
  pose proof H2 as (_ & Hs2 & _)%placeMines_spec.
  simplify_eq. by rewrite Hs2.
Qed.

(** The game that [#newGame] starts does not depend on the game it
    replaces. *)
Lemma newGame_forgets tape s0 s0' rows cols mines s :
  newGame tape s0 rows cols mines = Done s → newGame tape s0' rows cols mines = Done s.
Proof.
  intros H. pose proof (newGame_Done _ _ _ _ _ _ H) as Hs. revert H.
  unfold newGame, placeMinesInCells. simpl.
  rewrite (placeMines_reframe tape
             (mkGame (isGameFinished s0) rows cols mines (generateCells rows cols)
                (cols * rows - mines) (revealedCells s0) mines (emotion s0))
             (mkGame (isGameFinished s0') rows cols mines (generateCells rows cols)
                (cols * rows - mines) (revealedCells s0') mines (emotion s0'))) by done.
  destruct (placeMines tape _ mines) as [s2| |]; try done. simpl.
  intros [= E]. rewrite Hs, <- E. done.
Qed.

(** X6: a new game replaces the old one altogether.  When [#newGame]
    returns, every field of the game is fixed by the configuration and the
    board: the game is running, no cell is counted as revealed, the goal is
    cols * rows - mines, the counter of flags is at [mines] and the face is
    neutral; and the same game is started from any other old game, on the
    same numbers. *)
Theorem X6_newGame_replaces_the_old_game tape s0 rows cols mines s :
  newGame tape s0 rows cols mines = Done s →
  s = mkGame false rows cols mines (cells s) (cols * rows - mines) 0 mines neutral
  ∧ ∀ s0', newGame tape s0' rows cols mines = Done s.
Proof.
  intros H. split; [by eapply newGame_Done |].
  intros s0'. by eapply newGame_forgets.
Qed.

Lemma X6_newGame_replaces_the_old_game_witness :
  row4 = mkGame false 1 4 1 (cells row4) (4 * 1 - 1) 0 1 neutral
  ∧ ∀ s0', newGame [0%Q; (3 # 4)%Q] s0' 1 4 1 = Done row4.
Proof.
  apply (X6_newGame_replaces_the_old_game [0%Q; (3 # 4)%Q] initialGame 1 4 1 row4).
  reflexivity.
Defined.

(** ** A configuration without room for the mines *)

(** X17: on a board with rows and columns, with more mines than cells or a
    negative number of mines, the loop [while (minesToPlace)] of
    [#placeMinesInCells] never ends: whatever numbers [Math.random()]
    returns, and however many, [#newGame] neither returns nor throws, the
    loop is still running when the numbers are used up. *)
Theorem X17_newGame_without_room tape s0 rows cols mines :
  0 < rows → 0 < cols → mines < 0 ∨ rows * cols < mines → unitTape tape →
  newGame tape s0 rows cols mines = OutOfFuel.
Proof.
  intros Hrows Hcols Hmines Htape.
  destruct (newGame tape s0 rows cols mines) as [s | t |] eqn:H; [| | done].
  - exfalso. destruct Hmines as [Hneg | Hmany].
    + apply newGame_started in H. destruct H as [_ _ _ _ _ _ _ _ _ Hm _]. lia.
    + by apply (newGame_needs_room tape s0 rows cols mines s ltac:(lia) ltac:(lia)).
  - exfalso. unfold newGame, placeMinesInCells in H.
    destruct (placeMines tape _ _) as [s2 | t' |] eqn:H2; try done.
    eapply (placeMines_no_TypeError tape); [| | | exact Htape | exact H2]; simpl; try done.
    apply positions_generateCells.
Qed.

Lemma X17_newGame_without_room_witness :
  newGame [0%Q; 0%Q; 0%Q; (1 # 2)%Q; 0%Q; 0%Q] initialGame 1 2 3 = OutOfFuel.
Proof.
  apply X17_newGame_without_room; try lia.
  repeat constructor; by vm_compute.
Defined.

(** ** [#endGame] and [#revealMines] *)

Lemma countCells_fmap (P : Cell → bool) (g : Cell → Cell) cs :
  countCells P ((λ row : list Cell, g <$> row) <$> cs) = countCells (λ c, P (g c)) cs.
Proof.
  unfold countCells. induction cs as [| row cs IH]; csimpl; [done |]. rewrite IH. f_equal.
  clear. induction row as [| c row IH]; csimpl; [done |]. by rewrite IH.
Qed.

Lemma countCells_ext (P P' : Cell → bool) cs :
  (∀ c, P c = P' c) → countCells P cs = countCells P' cs.
Proof.
  intros H. unfold countCells.
  induction cs as [| row cs IH]; simpl; [done |]. rewrite IH. f_equal.
  clear IH. induction row as [| c row IH]; simpl; [done |]. by rewrite IH, H.
Qed.

Lemma revealMines_idemp cs : revealMines (revealMines cs) = revealMines cs.
Proof.
  unfold revealMines. rewrite <- list_fmap_compose. apply list_fmap_ext.
  intros _ row _. simpl. rewrite <- list_fmap_compose. apply list_fmap_ext.
  intros _ c _. simpl. by destruct (isMine c) eqn:E; simpl; rewrite ?E.
Qed.

(** X7: a loss ([#endGame(false)]) finishes the game with the face of a loss
    and uncovers the mines: every mined cell is revealed, flagged or not,
    and keeps its flag and its count; every other cell is as it was; the
    counter of revealed cells and the counter of flags do not move.  The
    cells still hidden afterwards are as many as the free cells that were
    hidden, and a second loss changes nothing. *)
Theorem X7_loss_uncovers_the_mines s :
  isGameFinished (endGame false s) = true
  ∧ emotion (endGame false s) = negative
  ∧ revealedCells (endGame false s) = revealedCells s
  ∧ counter (endGame false s) = counter s
  ∧ (∀ p, cellAt (cells (endGame false s)) p
          = (λ c, if isMine c then revealCell c else c) <$> cellAt (cells s) p)
  ∧ unrevealed (endGame false s) = hiddenFree s
  ∧ endGame false (endGame false s) = endGame false s.
Proof.
  repeat split.
  - intros p. apply cellAt_revealMines.
  - unfold unrevealed, hiddenFree. simpl. unfold revealMines. rewrite countCells_fmap.
    apply countCells_ext. intros c. by destruct (isMine c).
  - unfold endGame. simpl. unfold withCells. simpl. by rewrite revealMines_idemp.
Qed.

(** ** The phases of a game *)

Lemma phase_running s : phase s → isGameFinished s = false →
  emotion s = neutral ∧ noMineRevealed s.
Proof.
  unfold phase. destruct (emotion s); intros H Hfin.
  - split; [done | apply H].
  - destruct H. congruence.
  - destruct H. congruence.
Qed.

Lemma noMineRevealed_processCell s p n cell :
  cellAt (cells s) p = Some cell → isMine cell = false →
  noMineRevealed s → noMineRevealed (processCell s p n).
Proof.
  intros Hc Hm Hs q c Hq Hmq. rewrite cellAt_processCell in Hq. case_decide.
  - rewrite Hc in Hq. simplify_eq/=. congruence.
  - by eapply Hs.
Qed.

Lemma nstep_phase s s' : nstep s s' → phase s → phase s'.
Proof.
  intros Hstep Hs. destruct Hstep as [s p cell n Hfin Hc _ _ Hm _ | s Hfin Hgoal].
  - destruct (phase_running s Hs Hfin) as [He Hno]. unfold phase. simpl. rewrite He.
    split; [done |]. by eapply noMineRevealed_processCell.
  - destruct (phase_running s Hs Hfin) as [He Hno]. unfold phase. simpl. done.
Qed.

Lemma steps_phase s s' : rtc nstep s s' → phase s → phase s'.
Proof. induction 1; eauto using nstep_phase. Qed.

Lemma everyMineRevealed_grows s s' :
  later cellGrows s s' → everyMineRevealed s → everyMineRevealed s'.
Proof.
  intros H Hs q c' Hq Hm.
  destruct (later_cellAt_r _ _ H _ _ Hq) as (c & Hc & _ & Em & _ & Hr).
  apply Hr. eapply Hs; [done | congruence].
Qed.

Lemma clicked_phase s p s' : clicked s p s' → phase s → phase s'.
Proof.
  destruct 1 as [| | cell n s3 Hfin Hc Hf Hn H3]; try done. intros Hs.
  destruct (phase_running s Hs Hfin) as [He Hno].
  destruct (isMine cell) eqn:Hm.
  - apply steps_finished in H3; [| done]. subst s3.
    unfold winCheck. simpl. rewrite andb_false_r. unfold phase. simpl. split; [done |].
    eapply everyMineRevealed_grows; [apply processCell_grows |].
    intros q c Hq Hmq. simpl in Hq. rewrite cellAt_revealMines in Hq.
    destruct (cellAt (cells s) q) as [c0|]; simplify_eq/=.
    destruct (isMine c0) eqn:E; [done | congruence].
  - eapply steps_phase; [apply winCheck_steps |].
    eapply steps_phase; [exact H3 |].
    unfold phase. simpl. rewrite He. split; [done |].
    by eapply noMineRevealed_processCell.
Qed.

Lemma toggled_phase s p d : phase s → phase (toggled s p d).
Proof.
  assert (∀ q c', cellAt (cells (toggled s p d)) q = Some c' →
            ∃ c, cellAt (cells s) q = Some c ∧ isMine c' = isMine c ∧ isReveal c' = isReveal c)
    as H.
  { intros q c' Hq.
    destruct (boardRel_cellAt_r cellFlagged _ _ _ _ (toggled_boardRel s p d) Hq)
      as (c & Hc & _ & ? & _ & ? & _). eauto. }
  assert (noMineRevealed s → noMineRevealed (toggled s p d)) as Hno.
  { intros Hs q c' (c & Hc & Em & Er)%H Hm. rewrite Er. eapply Hs; [done | congruence]. }
  assert (everyMineRevealed s → everyMineRevealed (toggled s p d)) as Hall.
  { intros Hs q c' (c & Hc & Em & Er)%H Hm. rewrite Er. eapply Hs; [done | congruence]. }
  unfold phase. simpl. destruct (emotion s); tauto.
Qed.

Lemma reachable_phase s : reachable s → phase s.
Proof.
  induction 1 as [tape s0 rows cols mines s H | fuel s r c s' _ IH H | s r c s' _ IH H].
  - apply newGame_started in H. unfold phase.
    rewrite (started_emotion _ _ _ _ H). split; [apply (started_running _ _ _ _ H) |].
    intros p c Hc _. by destruct (started_marks _ _ _ _ p c H Hc).
  - unfold handleCellClick in H. destruct (at_ _ _); [| done].
    eapply clicked_phase; [by eapply clickCell_clicked | done].
  - apply handleCellContextMenu_Done in H as (cell & Hc & H).
    destruct (isReveal cell || isGameFinished s); [by subst |].
    destruct (isFlagged cell); [subst; by apply toggled_phase |].
    destruct (counter s =? 0); subst; [done | by apply toggled_phase].
Qed.

(** X8: in every reachable game the face of the reset button tells the phase:
    the game is running exactly when the face is neutral; with the face of a
    win the counter of revealed cells is at the goal; with the face of a
    loss the game is finished and every mine is revealed; and as long as the
    game is not lost, no mined cell is revealed. *)
Theorem X8_phases_of_a_game s :
  reachable s →
  (isGameFinished s = false ↔ emotion s = neutral)
  ∧ (emotion s = positive → revealedCells s = cellsToReveal s)
  ∧ (emotion s = negative → everyMineRevealed s)
  ∧ (emotion s ≠ negative → noMineRevealed s).
Proof.
  intros H%reachable_phase. unfold phase in H.
  destruct (emotion s); destruct H as (Hfin & H); repeat split; try done; try congruence;
    try tauto.
Qed.

Lemma X8_phases_of_a_game_witness :
  (isGameFinished row4_lost = false ↔ emotion row4_lost = neutral)
  ∧ (emotion row4_lost = positive → revealedCells row4_lost = cellsToReveal row4_lost)
  ∧ (emotion row4_lost = negative → everyMineRevealed row4_lost)
  ∧ (emotion row4_lost ≠ negative → noMineRevealed row4_lost).
Proof.
  apply (X8_phases_of_a_game row4_lost).
  apply (reachable_play 4 [Reveal 0 3] row4);
    [exact (reachable_new _ _ _ _ _ _ row4_new) | reflexivity].
Defined.

(** ** What the two handlers leave alone *)

Lemma boardRel_sameCellBut R cs cs' p :
  boardRel R cs cs' → sameCellBut R (cellAt cs p) (cellAt cs' p).
Proof.
  intros H. unfold sameCellBut. destruct (cellAt cs p) as [c|] eqn:Hc.
  - by destruct (boardRel_cellAt_l R _ _ _ _ H Hc) as (c' & -> & ?).
  - destruct (cellAt cs' p) as [c'|] eqn:Hc'; [| done].
    destruct (boardRel_cellAt_r R _ _ _ _ H Hc') as (c & ? & _). congruence.
Qed.

Lemma clicked_revealedCells s p s' : clicked s p s' → revealedCells s ≤ revealedCells s'.
Proof.
  destruct 1 as [| | cell n s3 _ _ _ _ H3]; try done.
  rewrite revealedCells_winCheck.
  pose proof (steps_count _ _ H3) as E.
  pose proof (later_unrevealed _ _ (steps_grows _ _ H3)).
  assert (revealedCells (processCell (if isMine cell then endGame false s else s) p n)
          = revealedCells s + 1) as E' by (by destruct (isMine cell)).
  lia.
Qed.

(** X9: a request that returns never changes the size of the board, the
    number of mines or the goal, never lowers the counter of revealed cells,
    and leaves every cell where it is, with its coordinates and its mine (or
    none), and revealed if it was.  A reveal request moves neither a flag
    nor the counter of flags; a flag request moves neither the counter of
    revealed cells nor the end of the game nor the face, and reveals
    nothing and changes no count. *)
Theorem X9_what_requests_leave_alone fuel s r s' :
  handle fuel s r = Done s' →
  numberOfRowes s' = numberOfRowes s ∧ numberOfCols s' = numberOfCols s
  ∧ numberOfMines s' = numberOfMines s ∧ cellsToReveal s' = cellsToReveal s
  ∧ revealedCells s ≤ revealedCells s'
  ∧ (∀ p, sameCellBut (λ c c', position c' = position c ∧ isMine c' = isMine c
                               ∧ (isReveal c = true → isReveal c' = true))
            (cellAt (cells s) p) (cellAt (cells s') p))
  ∧ match r with
    | Reveal _ _ =>
        counter s' = counter s ∧ ∀ p, flaggedAt s' p = flaggedAt s p
    | Flag _ _ =>
        revealedCells s' = revealedCells s ∧ isGameFinished s' = isGameFinished s
        ∧ emotion s' = emotion s
        ∧ ∀ p, sameCellBut (λ c c', isReveal c' = isReveal c ∧ value c' = value c)
                 (cellAt (cells s) p) (cellAt (cells s') p)
    end.
Proof.
  intros H. destruct r as [row col | row col]; simpl in H.
  - unfold handleCellClick in H. destruct (at_ _ _); [| done].
    apply clickCell_clicked in H.
    pose proof (clicked_revealedCells _ _ _ H) as Hle.
    pose proof (clicked_grows _ _ _ H) as Hg. destruct Hg as [? ? ? ? ? Hcells].
    repeat split; try done.
    + intros p. apply boardRel_sameCellBut.
      eapply boardRel_impl; [| exact Hcells]. intros c c' (? & ? & _ & ?). done.
    + intros p. apply later_flaggedAt. by split.
  - apply handleCellContextMenu_Done in H as (cell & Hc & H).
    assert (s' = s ∨ ∃ d, s' = toggled s (row, col) d) as [-> | [d ->]].
    { destruct (_ || _); [by left |]. destruct (isFlagged cell); [right; by eexists |].
      destruct (counter s =? 0); [by left | right; by eexists]. }
    + repeat split; try done; try lia; intros p; unfold sameCellBut;
        by destruct (cellAt (cells s) p).
    + pose proof (toggled_boardRel s (row, col) d) as Hrel.
      repeat split; try done; try lia; intros p; apply boardRel_sameCellBut;
        (eapply boardRel_impl; [| exact Hrel]); intros c c' (? & ? & ? & Er & _);
        rewrite ?Er; done.
Qed.

Lemma X9_what_requests_leave_alone_witness :
  ∃ s', handle 4 row4 (Reveal 0 0) = Done s'
        ∧ numberOfRowes s' = numberOfRowes row4
        ∧ revealedCells row4 ≤ revealedCells s'
        ∧ counter s' = counter row4.
Proof.
  exists (stateAfter row4 (handle 4 row4 (Reveal 0 0))).
  pose proof (X9_what_requests_leave_alone 4 row4 (Reveal 0 0)
                (stateAfter row4 (handle 4 row4 (Reveal 0 0))) eq_refl)
    as (? & _ & _ & _ & ? & _ & ? & _).
  split; [reflexivity | done].
Defined.

(** ** Flags *)

Lemma alter_twice {A} (f : A → A) (l : list A) (i : nat) a :
  l !! i = Some a → f (f a) = a → alter f i (alter f i l) = l.
Proof.
  revert i. induction l as [| b l IH]; intros [| i] H E; simplify_eq/=; [by rewrite E |].
  f_equal. by apply IH.
Qed.

Lemma updCell_twice f p cs c :
  cellAt cs p = Some c → f (f c) = c → updCell f p (updCell f p cs) = cs.
Proof.
  intros H E. pose proof (cellAt_nonneg _ _ _ H) as [H1 H2].
  apply cellAt_Some in H as (row & [_ Hrow]%at_Some & [_ Hc]%at_Some).
  unfold updCell. destruct (Z.leb_spec 0 p.1); [| lia]. destruct (Z.leb_spec 0 p.2); [| lia].
  simpl. eapply alter_twice; [exact Hrow |]. by eapply alter_twice.
Qed.

Lemma toggleFlag_twice c : toggleFlag (toggleFlag c) = c.
Proof.
  unfold toggleFlag. destruct c as [? ? ? ? [] ?]; simpl; [done |].
  by rewrite negb_involutive.
Qed.

(** X10: two flag requests for the same cell cancel: when the first returns,
    the second returns the game as it was before the first (the flag put is
    taken away and the counter gets it back, or the other way round; and a
    request that did nothing does nothing again).  The counter is assumed
    not to be -1, as in every reachable game. *)
Theorem X10_flag_requests_cancel s rowIndex colIndex s1 :
  counter s ≠ -1 →
  handleCellContextMenu s rowIndex colIndex = Done s1 →
  handleCellContextMenu s1 rowIndex colIndex = Done s.
Proof.
  intros Hcounter H. pose proof H as (cell & Hc & Hs1)%handleCellContextMenu_Done.
  destruct (isReveal cell) eqn:Hr; simpl in Hs1; [by subst |].
  destruct (isGameFinished s) eqn:Hfin; [by subst |].
  assert (∀ d, toggled (toggled s (rowIndex, colIndex) d) (rowIndex, colIndex) (- d) = s)
    as Hback.
  { intros d. unfold toggled. simpl.
    rewrite (updCell_twice toggleFlag _ _ cell Hc (toggleFlag_twice cell)).
    destruct s; unfold withCells, withCounter; simpl. f_equal. lia. }
  assert (isFlagged (toggleFlag cell) = negb (isFlagged cell)
          ∧ isReveal (toggleFlag cell) = false) as [Ef Er]
    by (unfold toggleFlag; by rewrite Hr).
  destruct (isFlagged cell) eqn:Hf.
  - subst s1. unfold handleCellContextMenu.
    rewrite cellAt_toggled, decide_True, Hc by done. simpl. rewrite Er, Ef, Hfin. simpl.
    destruct (Z.eqb_spec (counter s + 1) 0); [lia |]. simpl.
    f_equal. apply (Hback 1).
  - destruct (Z.eqb_spec (counter s) 0); subst s1; [done |].
    unfold handleCellContextMenu.
    rewrite cellAt_toggled, decide_True, Hc by done. simpl. rewrite Er, Ef, Hfin. simpl.
    f_equal. apply (Hback (-1)).
Qed.

Lemma X10_flag_requests_cancel_witness :
  handleCellContextMenu (play 4 row4 [Flag 0 1]) 0 1 = Done row4.
Proof.
  apply (X10_flag_requests_cancel row4 0 1 (play 4 row4 [Flag 0 1])).
  - by vm_compute.
  - reflexivity.
Defined.

(** ** A click on a cell with a mine next to it *)

(** X11: in a running game on a well-formed board, a click on an unflagged
    cell without mine that has a mine among its neighbours returns at the
    first level of the recursion: it stores the number of mined neighbours
    in the cell, reveals it and touches no other cell; the counter of
    revealed cells grows by one, the flag counter stays, and the game is won
    exactly when the counter has reached the goal. *)
Theorem X11_numbered_cell_opens_alone fuel s p cell :
  wellFormed s → isGameFinished s = false → cellAt (cells s) p = Some cell →
  isFlagged cell = false → isMine cell = false → adjacentMines s p ≠ 0 →
  ∃ s', clickCell (S fuel) s p = Done s'
    ∧ cellAt (cells s') p = Some (revealCell (setValue (adjacentMines s p) cell))
    ∧ (∀ q, q ≠ p → cellAt (cells s') q = cellAt (cells s) q)
    ∧ revealedCells s' = revealedCells s + 1
    ∧ counter s' = counter s
    ∧ (isGameFinished s' = true ↔ revealedCells s + 1 = cellsToReveal s)
    ∧ emotion s'
      = if decide (revealedCells s + 1 = cellsToReveal s) then positive else emotion s.
Proof.
  intros Hwf Hfin Hc Hf Hm Hn.
  pose proof (minesAround_adjacentMines s p Hwf (mk_is_Some _ _ Hc)) as Ha.
  assert (mineAt s p = 0) as E0 by (unfold mineAt; by rewrite Hc, Hm).
  rewrite E0, Z.add_0_r in Ha.
  exists (winCheck (processCell s p (adjacentMines s p))). split.
  { simpl. rewrite Hfin, Hc, Hf, Hm.
    rewrite (setCellValue_unfold _ s p cell _ Hc Ha).
    destruct (Z.eqb_spec (adjacentMines s p) 0); [done |]. unfold winCheck.
    by destruct (_ && _). }
  rewrite cells_winCheck, revealedCells_winCheck.
  split; [by rewrite cellAt_processCell, decide_True, Hc |].
  split; [intros q Hq; by rewrite cellAt_processCell, decide_False |].
  split; [done |]. unfold winCheck. simpl. rewrite Hfin. simpl.
  destruct (Z.eqb_spec (revealedCells s + 1) (cellsToReveal s)); simpl.
  - rewrite decide_True by done. done.
  - rewrite decide_False by done. rewrite Hfin. split; [done |]. split; [| done].
    split; [done | lia].
Qed.

Lemma X11_numbered_cell_opens_alone_witness :
  ∃ s', clickCell 1 row4 (0, 2) = Done s'
    ∧ cellAt (cells s') (0, 2) = Some (mkCell 2 0 1 false true false)
    ∧ revealedCells s' = 1.
Proof.
  destruct (X11_numbered_cell_opens_alone 0 row4 (0, 2) (mkCell 2 0 0 false false false))
    as (s' & H & Hp & _ & Hr & _); try (by vm_compute).
  exists s'. split; [exact H |]. split; [exact Hp | exact Hr].
Defined.

(** ** Flags lock cells *)

(** X15: a reveal request that returns leaves every flagged cell exactly as
    it was, with one exception: when the request loses a running game, the
    flagged cells with a mine are revealed with the other mines (and keep
    their flag). *)
Theorem X15_flags_lock_cells fuel s rowIndex colIndex s' q c :
  handleCellClick fuel s rowIndex colIndex = Done s' →
  cellAt (cells s) q = Some c → isFlagged c = true →
  cellAt (cells s') q = Some c
  ∨ (isMine c = true ∧ isGameFinished s = false ∧ emotion s' = negative
     ∧ cellAt (cells s') q = Some (revealCell c)).
Proof.
  unfold handleCellClick. destruct (at_ _ _); [| done].
  intros H%clickCell_clicked Hq Hfl.
  destruct H as [| | cell n s3 Hfin Hc Hf Hn H3]; [by left | by left |].
  assert ((rowIndex, colIndex) ≠ q) as Hne by (intros <-; congruence).
  rewrite cells_winCheck.
  set (s1 := if isMine cell then endGame false s else s) in *.
  set (c1 := if isMine cell then (if isMine c then revealCell c else c) else c).
  assert (cellAt (cells s1) q = Some c1) as Hq1.
  { subst s1 c1. destruct (isMine cell); [| done].
    simpl. by rewrite cellAt_revealMines, Hq. }
  assert (isFlagged c1 = true) as Hfl1.
  { subst c1. destruct (isMine cell); [| done]. by destruct (isMine c). }
  assert (cellAt (cells s3) q = Some c1) as Hq3.
  { pose proof (steps_keeps _ _ H3) as [_ _ _ _ _ Hrel].
    destruct (boardRel_cellAt_l cellKeeps _ _ q c1 Hrel) as (c' & Hc' & _ & _ & Hk).
    - by rewrite cellAt_processCell, decide_False.
    - by rewrite Hc', (Hk Hfl1). }
  rewrite Hq3. subst c1 s1. destruct (isMine cell) eqn:Hm; [| by left].
  destruct (isMine c) eqn:Hmc; [| by left]. right.
  apply steps_finished in H3; [| done]. subst s3.
  unfold winCheck. simpl. by rewrite andb_false_r.
Qed.

Lemma X15_flags_lock_cells_witness :
  cellAt (cells (play 4 row4 [Flag 0 3; Reveal 0 0])) (0, 3)
  = Some (mkCell 3 0 0 true false true)
  ∨ (true = true ∧ isGameFinished (play 4 row4 [Flag 0 3]) = false
     ∧ emotion (play 4 row4 [Flag 0 3; Reveal 0 0]) = negative
     ∧ cellAt (cells (play 4 row4 [Flag 0 3; Reveal 0 0])) (0, 3)
       = Some (revealCell (mkCell 3 0 0 true false true))).
Proof.
  apply (X15_flags_lock_cells 4 (play 4 row4 [Flag 0 3]) 0 0
           (play 4 row4 [Flag 0 3; Reveal 0 0]) (0, 3) (mkCell 3 0 0 true false true));
    by vm_compute.
Defined.

(** ** The counter of revealed cells never falls behind *)

Lemma hiddenFree_processCell s p n cell :
  cellAt (cells s) p = Some cell →
  (hiddenFree (processCell s p n)
   + (if negb (isMine cell) && negb (isReveal cell) then 1 else 0)
   = hiddenFree s)%nat.
Proof.
  intros Hc. unfold hiddenFree. simpl.
  pose proof (countCells_updCell (λ c, negb (isMine c) && negb (isReveal c))
    (λ c, revealCell (setValue n c)) p (cells s) cell Hc) as E.
  cbv beta in E. simpl in E. rewrite andb_false_r in E. lia.
Qed.

Lemma nstep_sum s s' :
  nstep s s' →
  revealedCells s' + Z.of_nat (hiddenFree s') = revealedCells s + Z.of_nat (hiddenFree s).
Proof.
  destruct 1 as [s p cell n _ Hc _ Hr Hm _ | s]; [| done].
  pose proof (hiddenFree_processCell s p n cell Hc) as E. rewrite Hm, Hr in E.
  simpl in *. lia.
Qed.

Lemma steps_sum s s' :
  rtc nstep s s' →
  revealedCells s' + Z.of_nat (hiddenFree s') = revealedCells s + Z.of_nat (hiddenFree s).
Proof.
  induction 1 as [| s1 s2 s3 H12 _ IH]; [done |]. rewrite IH. by apply nstep_sum.
Qed.

Lemma hiddenFree_endGame isWin s : hiddenFree (endGame isWin s) = hiddenFree s.
Proof.
  destruct isWin; [done |]. unfold hiddenFree. simpl.
  apply (countCells_eq_rel (λ c c', c' = if isMine c then revealCell c else c)).
  - intros c c' ->. destruct (isMine c) eqn:E; simpl; by rewrite ?E.
  - apply boardRel_fmap. done.
Qed.

Lemma clicked_sum s p s' :
  clicked s p s' →
  revealedCells s + Z.of_nat (hiddenFree s)
  ≤ revealedCells s' + Z.of_nat (hiddenFree s').
Proof.
  destruct 1 as [| | cell n s3 _ Hc _ _ H3]; try done.
  rewrite revealedCells_winCheck.
  assert (hiddenFree (winCheck s3) = hiddenFree s3) as ->
    by (unfold hiddenFree; by rewrite cells_winCheck).
  rewrite (steps_sum _ _ H3).
  set (s1 := if isMine cell then endGame false s else s).
  assert (revealedCells s1 = revealedCells s ∧ hiddenFree s1 = hiddenFree s
          ∧ ∃ c1, cellAt (cells s1) p = Some c1) as (Er & Eh & c1 & Hc1).
  { subst s1. destruct (isMine cell); [| eauto].
    rewrite hiddenFree_endGame. split; [done |]. split; [done |].
    simpl. rewrite cellAt_revealMines, Hc. by eexists. }
  pose proof (hiddenFree_processCell s1 p n c1 Hc1) as E.
  simpl. destruct (_ && _) in E; lia.
Qed.

(** X14: in every reachable game with a board (no negative size), the
    counter of revealed cells is at least the number of cells without mine
    that are revealed: the goal is at most the counter plus the number of
    cells without mine that are still hidden.  (The counter can be more,
    since a click on a revealed cell counts it again.) *)
Theorem X14_counter_never_falls_behind s :
  reachable s → 0 ≤ numberOfRowes s → 0 ≤ numberOfCols s →
  cellsToReveal s ≤ revealedCells s + Z.of_nat (hiddenFree s).
Proof.
  induction 1 as [tape s0 rows cols mines s H | fuel s r c s' _ IH H | s r c s' _ IH H];
    intros Hrows Hcols.
  - apply newGame_started in H. pose proof H as [].
    pose proof (started_counted rows cols mines s ltac:(lia) ltac:(lia) H) as E.
    unfold counted in E. lia.
  - unfold handleCellClick in H. destruct (at_ _ _); [| done].
    apply clickCell_clicked in H.
    pose proof (clicked_grows _ _ _ H) as [Er Ec _ Eg _ _].
    pose proof (clicked_sum _ _ _ H). rewrite Er, Ec in *. specialize (IH Hrows Hcols). lia.
  - apply handleCellContextMenu_Done in H as (cell & Hc & H).
    assert (s' = s ∨ ∃ d, s' = toggled s (r, c) d) as [-> | [d ->]].
    { destruct (_ || _); [by left |]. destruct (isFlagged cell); [right; by eexists |].
      destruct (counter s =? 0); [by left | right; by eexists]. }
    + by apply IH.
    + simpl in *. specialize (IH Hrows Hcols).
      assert (hiddenFree (toggled s (r, c) d) = hiddenFree s) as ->; [| done].
      unfold hiddenFree.
      apply (countCells_eq_rel cellFlagged
               (λ c, negb (isMine c) && negb (isReveal c)) _ _
               ltac:(intros c0 c' (_ & Em & _ & Er & _); simpl; by rewrite Em, Er)
               (toggled_boardRel s (r, c) d)).
Qed.

Lemma X14_counter_never_falls_behind_witness :
  cellsToReveal (play 4 row4 [Reveal 0 2; Reveal 0 2])
  ≤ revealedCells (play 4 row4 [Reveal 0 2; Reveal 0 2])
    + Z.of_nat (hiddenFree (play 4 row4 [Reveal 0 2; Reveal 0 2])).
Proof.
  apply X14_counter_never_falls_behind; [| by vm_compute | by vm_compute].
  apply (reachable_play 4 [Reveal 0 2; Reveal 0 2] row4); [| reflexivity].
  apply (reachable_new [0%Q; (3 # 4)%Q] initialGame 1 4 1). by vm_compute.
Defined.

(** ** Sessions without a second click on a revealed cell *)

(** X16: in a session that starts from a board with fewer mines than cells
    and in which no reveal request is made for a revealed cell, the counter
    of revealed cells never passes the goal and is the number of revealed
    cells without mine as long as no mine was clicked; the game runs exactly
    while the face is neutral; and unless a mine was clicked, the game is
    won exactly when no cell without mine is hidden any more. *)
Theorem X16_careful_session s :
  careful s →
  revealedCells s ≤ cellsToReveal s
  ∧ (isGameFinished s = false ↔ emotion s = neutral)
  ∧ (emotion s ≠ negative →
     revealedCells s + Z.of_nat (hiddenFree s) = cellsToReveal s
     ∧ (emotion s = positive ↔ hiddenFree s = 0%nat)).
Proof.
  intros H%careful_goalKept. unfold goalKept, counted in H.
  destruct (emotion s); destruct H as (Hfin & H).
  - destruct H as [Hc Hlt]. split; [lia |]. split; [done |]. intros _.
    split; [done |]. split; [done | lia].
  - destruct H as [Hc Heq]. split; [lia |]. split; [split; congruence |]. intros _.
    split; [done |]. split; [lia | done].
  - split; [done |]. split; [split; congruence | done].
Qed.

Lemma X16_careful_session_witness :
  revealedCells (play 4 row4 [Reveal 0 0]) ≤ cellsToReveal (play 4 row4 [Reveal 0 0])
  ∧ emotion (play 4 row4 [Reveal 0 0]) = positive.
Proof.
  assert (careful row4) as H0.
  { apply (careful_new [0%Q; (3 # 4)%Q] initialGame 1 4 1); try lia. by vm_compute. }
  assert (careful (play 4 row4 [Reveal 0 0])) as H1.
  { eapply (careful_reveal 4 row4 0 0); [exact H0 | by vm_compute | by vm_compute]. }
  destruct (X16_careful_session _ H1) as (Hle & _ & _).
  split; [exact Hle | by vm_compute].
Defined.

(** ** Levels and buttons *)

Lemma clickButton_levelOf tape s b :
  clickButton tape s b
  = newGame tape s (config.rows (levelOf s b)) (config.cols (levelOf s b))
      (config.mines (levelOf s b)).
Proof. by destruct b. Qed.

(** X12: when the callback of a level button or of the reset button
    returns, a game of the button's level has started, whatever the game
    before was (running, won or lost): the board has the level's size and
    number of mines, no cell is revealed or flagged, the counter of flags is
    at the number of mines, the goal is the number of cells without mine, the
    game runs.  For the reset button the level is that of the game it
    replaces, so that a reset after a button does what the button does again
    (on the same random numbers); and [initializeGame] does what the easy
    button does. *)
Theorem X12_buttons_start_their_level tape s b s' :
  clickButton tape s b = Done s' →
  started (config.rows (levelOf s b)) (config.cols (levelOf s b))
    (config.mines (levelOf s b)) s'
  ∧ (∀ p c, cellAt (cells s') p = Some c → isReveal c = false ∧ isFlagged c = false)
  ∧ levelOf s' reset = levelOf s b
  ∧ (∀ tape' s'', clickButton tape' s' reset = Done s'' ↔ clickButton tape' s b = Done s'')
  ∧ (b = easy → initializeGame tape s = Done s').
Proof.
  rewrite clickButton_levelOf. intros H.
  pose proof (newGame_started _ _ _ _ _ _ H) as Hs.
  assert (levelOf s' reset = levelOf s b) as El.
  { destruct Hs as [_ Er Ec Em _ _ _ _ _ _ _]. simpl. rewrite Er, Ec, Em.
    by destruct (levelOf s b). }
  split; [done |]. split; [intros p c; by apply (started_marks _ _ _ _ _ _ Hs) |].
  split; [done |]. split.
  - intros tape' s''. rewrite !clickButton_levelOf, El. split; apply newGame_forgets.
  - intros ->. exact H.
Qed.

Lemma X12_buttons_start_their_level_witness :
  ∃ s', clickButton (tapeFor 8 8 0 10) row4_lost easy = Done s'
        ∧ started 8 8 10 s' ∧ levelOf s' reset = config.easy.
Proof.
  exists (stateAfter row4_lost (clickButton (tapeFor 8 8 0 10) row4_lost easy)).
  assert (clickButton (tapeFor 8 8 0 10) row4_lost easy
          = Done (stateAfter row4_lost (clickButton (tapeFor 8 8 0 10) row4_lost easy)))
    as H by (by vm_compute).
  split; [exact H |].
  destruct (X12_buttons_start_their_level _ _ _ _ H) as (Hs & _ & El & _).
  split; [exact Hs | exact El].
Defined.



(** ** The cascade stays in the region *)

Lemma hiddenChain_trans s p q d : hiddenChain s p q → hiddenChain s q d → hiddenChain s p d.
Proof. intros Hpq. induction 1; [done | by econstructor]. Qed.

Lemma later_hidden s s' q : later cellGrows s s' → hidden s' q → hidden s q.
Proof.
  intros H (c' & Hc' & Hr & Hf).
  destruct (later_cellAt_r _ _ H _ _ Hc') as (c & Hc & _ & _ & Ef & Er).
  exists c. split; [done |]. split; [| congruence].
  destruct (isReveal c); [| done]. rewrite Er in Hr; done.
Qed.

Lemma later_freeZero s s' q :
  wellFormed s → later cellGrows s s' → freeZero s' q → freeZero s q.
Proof.
  intros Hwf H (c' & Hc' & Hm & Hz).
  destruct (later_cellAt_r _ _ H _ _ Hc') as (c & Hc & _ & Em & _).
  exists c. split; [done |]. split; [congruence |].
  pose proof (minesAround_adjacentMines s q Hwf (mk_is_Some _ _ Hc)) as E.
  pose proof (minesAround_adjacentMines s' q (later_wellFormed _ _ H Hwf)
                (mk_is_Some _ _ Hc')) as E'.
  rewrite (later_minesAround _ _ _ H), E in E'. unfold mineAt in E'.
  rewrite Hc, Hc' in E'. rewrite <- Em in E'. rewrite Hm in E'. injection E' as E'. lia.
Qed.

Lemma later_hiddenChain s s' p d :
  wellFormed s → later cellGrows s s' → hiddenChain s' p d → hiddenChain s p d.
Proof.
  intros Hwf H. induction 1 as [| q d _ IH Hz Hh Hadj Hin]; [constructor |].
  eapply hiddenChain_step; [exact IH | by eapply later_freeZero | by eapply later_hidden
                           | done |].
  destruct H as [Er Ec _ _ _ _]. unfold inBoard in *. by rewrite <- Er, <- Ec.
Qed.

Lemma revealAdjacent_stays click ps s s' :
  cascades click → stays click → wellFormed s →
  (∀ p c, p ∈ ps → cellAt (cells s) p = Some c → isMine c = false) →
  revealAdjacent click ps s = Done s' →
  ∀ d, revealedAt s d = false → revealedAt s' d = true → ∃ q, q ∈ ps ∧ hiddenChain s q d.
Proof.
  intros Hsteps Hclick. revert s.
  induction ps as [| p ps IH]; intros s Hwf Hmines H d Hd Hd'; simpl in H.
  { simplify_eq. congruence. }
  destruct (cellAt (cells s) p) as [adj|] eqn:Hadj; [| done].
  assert (isMine adj = false) as Hm by (eapply Hmines; [left | done]).
  destruct (isReveal adj) eqn:Hr.
  { destruct (IH s Hwf ltac:(intros q c Hq; apply Hmines; by right) H d Hd Hd')
      as (q & Hq & Hchain).
    exists q. split; [by right | done]. }
  destruct (click s p) as [s1| |] eqn:Hs1; try done.
  pose proof (steps_grows _ _ (Hsteps _ _ _ _ Hadj Hr Hm Hs1)) as H1.
  destruct (revealedAt s1 d) eqn:Hd1.
  { exists p. split; [left |]. by eapply Hclick. }
  assert (∀ q c, q ∈ ps → cellAt (cells s1) q = Some c → isMine c = false) as Hmines1.
  { intros q c Hq Hc.
    destruct (later_cellAt_r _ _ H1 _ _ Hc) as (c0 & Hc0 & _ & E & _).
    rewrite E. eapply Hmines; [by right | done]. }
  destruct (IH s1 (later_wellFormed _ _ H1 Hwf) Hmines1 H d Hd1 Hd') as (q & Hq & Hchain).
  exists q. split; [by right |]. by eapply later_hiddenChain.
Qed.

Lemma clickCell_stays fuel : stays (clickCell fuel).
Proof.
  induction fuel as [| fuel IH]; intros s p cell s' Hwf Hc Hr Hm H d Hd Hd'; simpl in H;
    [done |].
  destruct (isGameFinished s) eqn:Hfin; [simplify_eq; congruence |].
  rewrite Hc in H. destruct (isFlagged cell) eqn:Hf; [simplify_eq; congruence |].
  rewrite Hm in H.
  destruct (setCellValue (clickCell fuel) s p) as [s3| |] eqn:H3; try done.
  assert (s' = winCheck s3) as -> by (unfold winCheck; destruct (_ && _); by simplify_eq).
  unfold revealedAt in Hd'. rewrite cells_winCheck in Hd'. fold (revealedAt s3 d) in Hd'.
  destruct (decide (d = p)) as [-> | Hne]; [constructor |].
  unfold setCellValue in H3. rewrite Hc in H3.
  destruct (countMines _ _ 0) as [n|] eqn:Hn; [| done].
  assert (revealedAt (processCell s p n) d = false) as Hd2.
  { unfold revealedAt in *. by rewrite cellAt_processCell, decide_False. }
  destruct (Z.eqb_spec n 0) as [-> | Hn0]; [| simplify_eq; congruence].
  pose proof (processCell_grows s p 0) as H2.
  assert (∀ q c, q ∈ neighbourhood s (x cell) (y cell) →
                 cellAt (cells (processCell s p 0)) q = Some c → isMine c = false) as Hmines.
  { intros q c Hq Hq'.
    destruct (later_cellAt_r _ _ H2 _ _ Hq') as (c0 & Hc0 & _ & E & _).
    rewrite E. by eapply countMines_none. }
  destruct (revealAdjacent_stays _ _ _ _ (clickCell_cascades fuel) IH
              (later_wellFormed _ _ H2 Hwf) Hmines H3 d Hd2 Hd') as (q & Hq & Hchain).
  apply (later_hiddenChain _ _ _ _ Hwf H2) in Hchain.
  eapply hiddenChain_trans; [| exact Hchain].
  destruct (wellFormed_cellAt s p cell Hwf Hc) as (_ & Hy & Hx).
  pose proof (neighbourhood_inBoard _ _ _ _ Hq) as Hin.
  apply elem_of_neighbourhood in Hq. rewrite Hx, Hy in Hq.
  eapply (hiddenChain_step s p p q); [constructor | | | | done].
  - exists cell. split; [done |]. split; [done |].
    pose proof (minesAround_adjacentMines s p Hwf (mk_is_Some _ _ Hc)) as E.
    unfold minesAround in E. rewrite Hc in E. simpl in E. rewrite Hn in E.
    unfold mineAt in E. rewrite Hc, Hm in E. injection E as E. lia.
  - by exists cell.
  - unfold adjacent. lia.
Qed.

(** X18: the cascade stays in its region.  On a well-formed board, every
    cell that a click on a hidden cell without mine reveals is the clicked
    cell or is reached from it through a chain of adjacent cells that have
    no mine in or around them and were hidden (neither revealed nor
    flagged) before the click; and it carried no flag and has no mine. *)
Theorem X18_cascade_stays_in_the_region fuel s p cell s' d :
  wellFormed s →
  cellAt (cells s) p = Some cell → isReveal cell = false → isMine cell = false →
  clickCell fuel s p = Done s' →
  revealedAt s d = false → revealedAt s' d = true →
  hiddenChain s p d ∧ flaggedAt s d = false ∧ mineAt s d = 0.
Proof.
  intros Hwf Hc Hr Hm H Hd Hd'.
  pose proof (clickCell_stays fuel s p cell s' Hwf Hc Hr Hm H d Hd Hd') as Hchain.
  split; [done |]. split.
  - pose proof (steps_keeps _ _ (clickCell_cascades fuel s p cell s' Hc Hr Hm H))
      as [_ _ _ _ _ Hrel].
    unfold flaggedAt, revealedAt in *.
    destruct (cellAt (cells s) d) as [c|] eqn:Hcd; [| done]. simpl in *.
    destruct (isFlagged c) eqn:Hf; [| done].
    destruct (boardRel_cellAt_l cellKeeps _ _ _ _ Hrel Hcd) as (c' & Hc' & _ & _ & Hsame).
    rewrite Hc' in Hd'. simpl in Hd'. rewrite (Hsame Hf) in Hd'. congruence.
  - destruct Hchain as [| q d _ (cq & Hq & Hmq & Hzq) _ Hadj Hin].
    + unfold mineAt. by rewrite Hc, Hm.
    + destruct (decide (d = q)) as [-> | Hne]; [unfold mineAt; by rewrite Hq, Hmq |].
      by eapply adjacentMines_zero.
Qed.

Lemma X18_cascade_stays_in_the_region_witness :
  hiddenChain row5 (0, 0) (0, 3) ∧ flaggedAt row5 (0, 3) = false ∧ mineAt row5 (0, 3) = 0.
Proof.
  apply (X18_cascade_stays_in_the_region 5 row5 (0, 0) (mkCell 0 0 0 false false false)
           (stateAfter row5 (clickCell 5 row5 (0, 0))) (0, 3)); by vm_compute.
Defined.
